(** * Torah Window plugin: hanging indent sized to the first word

    A shallow embedding of [packages/core/src/vivliostyle/torah-window.ts]:
    the two hooks the plugin registers ([preprocessElementStyleHook] and
    [postLayoutBlockHangingIndent]) together with the part of the DOM and of
    the layout context they read and write.

    Conventions of the embedding.
    - A JavaScript string that holds rendered text is a list of UTF-16 code
      units; property names, class names and CSS values are [string]s.
    - A JavaScript number that carries a measurement is an element of a type
      [num] with the operations the hooks use (class [JsNumber]); counts and
      integer literals are kept in [Z].
    - A DOM node is referred to by its position: the list of child indices that
      leads to it from the block element.
    - The hooks mutate the node context and the view tree in place; here they
      take the node context and return the updated one, the block element
      being held in the [viewNode] field.
    - Calls to [Logging.logger] write nothing to the node context or to the
      view tree and are left out of the hooks; what the first log statement
      of the post-layout hook reads from a [null] node context is in
      [invokePostLayoutBlock]. *)

From Stdlib Require Import ZArith NArith Ascii String List Bool Lia.
From stdpp Require Import base option list strings gmap pretty.

Local Open Scope string_scope.
Local Open Scope Z_scope.
Local Open Scope list_scope.

Set Warnings "-register-all,-clear-no-such-hyp".

(** ** JavaScript values *)

(** Numbers, as far as the plugin uses them. *)
Class JsNumber (num : Type) := {
  num_zero : num;                      (* the literal [0] *)
  num_add : num -> num -> num;         (* [x + y] *)
  num_is_zero : num -> bool;           (* [x === 0] *)
  num_truthy : num -> bool;            (* [!!x] *)
  num_lt : num -> num -> Prop;         (* [x < y] *)
  Math_round : num -> Z;               (* [Math.round(x)], for a finite [x] *)
  num_toString : num -> string;        (* the string [`${x}`] *)
  num_zero_is_zero : num_is_zero num_zero = true;
  num_pos_not_zero : forall x, num_lt num_zero x -> num_is_zero x = false
}.

(** Integer pixel measurements are one implementation of the interface. *)
#[export, refine] Instance Z_JsNumber : JsNumber Z := {|
  num_zero := 0;
  num_add := Z.add;
  num_is_zero := fun x => (x =? 0)%Z;
  num_truthy := fun x => negb (x =? 0)%Z;
  num_lt := Z.lt;
  Math_round := fun x => x;
  num_toString := fun x => pretty x
|}.
Proof.
  - reflexivity.
  - intros x Hx. apply Z.eqb_neq. lia.
Defined.

(** Text: a sequence of UTF-16 code units. *)
Definition JsString : Type := list N.

(** The code units of an ASCII literal. *)
Definition utf16 (s : string) : JsString :=
  map N_of_ascii (list_ascii_of_string s).

(** ECMAScript [WhiteSpace] and [LineTerminator] code points: the characters
    that [\s] matches and that [String.prototype.trim] strips. *)
Definition isWhiteSpace (c : N) : bool :=
  ((9 <=? c) && (c <=? 13) ||
   (c =? 32) || (c =? 160) || (c =? 5760) ||
   (8192 <=? c) && (c <=? 8202) ||
   (c =? 8232) || (c =? 8233) || (c =? 8239) || (c =? 8287) ||
   (c =? 12288) || (c =? 65279))%N.

Fixpoint dropWhile {A} (p : A -> bool) (l : list A) : list A :=
  match l with
  | [] => []
  | x :: l' => if p x then dropWhile p l' else l
  end.

Fixpoint takeWhile {A} (p : A -> bool) (l : list A) : list A :=
  match l with
  | [] => []
  | x :: l' => if p x then x :: takeWhile p l' else []
  end.

(** [text.trim()] *)
Definition trim (text : JsString) : JsString :=
  rev (dropWhile isWhiteSpace (rev (dropWhile isWhiteSpace text))).

(** *** The regular expression [/^(\s*\S+\s+)/] *)

(** The character class escapes of the pattern. *)
Inductive CharClass : Type :=
| WhiteSpaceClass       (* [\s] *)
| NonWhiteSpaceClass.   (* [\S] *)

Definition inClass (cls : CharClass) (c : N) : bool :=
  match cls with
  | WhiteSpaceClass => isWhiteSpace c
  | NonWhiteSpaceClass => negb (isWhiteSpace c)
  end.

(** A class under a greedy quantifier: [*] asks for no repetition at least,
    [+] for one. *)
Record Atom : Type := mkAtom {
  atomClass : CharClass;
  atomMin : nat
}.

Definition zeroOrMore (cls : CharClass) : Atom := mkAtom cls 0.
Definition oneOrMore (cls : CharClass) : Atom := mkAtom cls 1.

(** A greedy quantifier with backtracking: the atom takes [k] characters and
    the rest of the pattern continues behind them; when the rest fails the
    atom gives one character back, as long as it keeps its minimum.  The
    result is the number of code units matched. *)
Fixpoint backtrack (k min : nat) (continue : JsString -> option nat)
    (text : JsString) : option nat :=
  if (k <? min)%nat then None
  else
    match continue (drop k text) with
    | Some n => Some (k + n)%nat
    | None =>
        match k with
        | O => None
        | S k' => backtrack k' min continue text
        end
    end.

(** A sequence of quantified classes matched at the start of [text]; each
    atom first takes the longest run of its class. *)
Fixpoint matchAtoms (atoms : list Atom) (text : JsString) : option nat :=
  match atoms with
  | [] => Some 0%nat
  | a :: rest =>
      backtrack (length (takeWhile (inClass (atomClass a)) text)) (atomMin a)
                (matchAtoms rest) text
  end.

(** [\s*\S+\s+], anchored by [^] at the start of the text. *)
Definition FIRST_WORD_PATTERN : list Atom :=
  [zeroOrMore WhiteSpaceClass; oneOrMore NonWhiteSpaceClass; oneOrMore WhiteSpaceClass].

(** [text.match(/^(\s*\S+\s+)/)]: the capture group [match[1]], which spans
    the whole match, or [None] for [null]. *)
Definition matchFirstWord (text : JsString) : option JsString :=
  match matchAtoms FIRST_WORD_PATTERN text with
  | Some n => Some (take n text)
  | None => None
  end.

(** What the match amounts to, without backtracking: every leading white
    space character, then every character up to the next white space, then
    every white space character that follows. *)
Definition scanFirstWord (text : JsString) : option JsString :=
  let lead := takeWhile isWhiteSpace text in
  let rest := dropWhile isWhiteSpace text in
  let word := takeWhile (fun c => negb (isWhiteSpace c)) rest in
  let rest' := dropWhile (fun c => negb (isWhiteSpace c)) rest in
  let gap := takeWhile isWhiteSpace rest' in
  match word, gap with
  | [], _ => None
  | _, [] => None
  | _, _ => Some (lead ++ word ++ gap)
  end.

(** ** The rendered DOM *)

(** The inline style of an element: CSS property name to value. *)
Abbreviation Style := (gmap string string).

Inductive Node : Type :=
| TextNode (textContent : JsString)
| CommentNode (data : JsString)
| ElementNode (localName : string) (className : string) (style : Style)
              (childNodes : list Node).

(** An element, as the hook holds it after the cast [as HTMLElement]. *)
Record Element : Type := mkElement {
  elLocalName : string;
  elClassName : string;
  elStyle : Style;
  elChildNodes : list Node
}.

Definition nodeOfElement (e : Element) : Node :=
  ElementNode (elLocalName e) (elClassName e) (elStyle e) (elChildNodes e).

(** The position of a node below the block element. *)
Definition Path : Type := list nat.

(** The two ways the hook sets up a [Range]. *)
Inductive Range : Type :=
| RangeOffsets (node : Path) (startOffset endOffset : nat)
    (* [setStart(node, startOffset); setEnd(node, endOffset)] *)
| RangeSelectNode (node : Path)
    (* [selectNode(node)] *).

(** A rendered rectangle ([DOMRect]); the hook reads [top] and [width]. *)
Record Rect (num : Type) : Type := mkRect {
  top : num;
  width : num
}.
Arguments mkRect {num} _ _.
Arguments top {num} _.
Arguments width {num} _.

(** [column.clientLayout]: the measurement capability of the host.  What it
    answers depends on the rendered tree at the time of the call, so the
    block element is an argument. *)
Record ClientLayout (num : Type) : Type := mkClientLayout {
  getRangeClientRects : Element -> Range -> list (Rect num)
}.
Arguments mkClientLayout {num} _.
Arguments getRangeClientRects {num} _ _ _.

Record Column (num : Type) : Type := mkColumn {
  clientLayout : ClientLayout num
}.
Arguments mkColumn {num} _.
Arguments clientLayout {num} _.

(** ** The layout context *)

(** A value stored in [inheritedProps] or [pluginProps]. *)
Inductive JsValue (num : Type) : Type :=
| VString (s : string)
| VNumber (n : num)
| VInt (z : Z)            (* an integer-valued number *)
| VObject (str : string)  (* an object such as a [Css.Val]; its [toString()] *)
| VNull.                  (* [null] or [undefined] stored under the key *)
Arguments VString {num} _.
Arguments VNumber {num} _.
Arguments VInt {num} _.
Arguments VObject {num} _.
Arguments VNull {num}.

Abbreviation Props num := (gmap string (JsValue num)).

(** [Vtree.NodeContext], restricted to the fields the hooks use. *)
Record NodeContext (num : Type) : Type := mkNodeContext {
  viewNode : option Element;
  inline : bool;
  fragmentIndex : Z;
  inheritedProps : option (Props num);
  pluginProps : option (Props num)
}.
Arguments mkNodeContext {num} _ _ _ _ _.
Arguments viewNode {num} _.
Arguments inline {num} _.
Arguments fragmentIndex {num} _.
Arguments inheritedProps {num} _.
Arguments pluginProps {num} _.

(** A value of the resolved style map handed to the style hook. *)
Inductive StyleValue : Type :=
| SIdent (name : string)   (* a [Css.Ident] *)
| SString (s : string)     (* a primitive string *)
| SOther (str : string)    (* any other truthy value, with its [toString()] *)
| SFalsy.                  (* [null], [undefined], [0], [NaN] or [false] *)

(** ** Constants of the module *)

Definition HANGING_INDENT_PROP : string := "hanging-indent".

(** ** DOM operations the hooks call *)

(** [doc.createElement(localName)]: no class, no inline style, no child. *)
Definition createElement (localName : string) : Element :=
  mkElement localName "" ∅ [].

(** [el.className = c] *)
Definition setClassName (c : string) (el : Element) : Element :=
  mkElement (elLocalName el) c (elStyle el) (elChildNodes el).

(** [el.style.<property> = value] *)
Definition setStyle (property value : string) (el : Element) : Element :=
  mkElement (elLocalName el) (elClassName el)
            (<[property := value]> (elStyle el)) (elChildNodes el).

(** A reference to a child of a known parent: its current index. *)
Definition ChildRef : Type := option nat.

(** [parent.firstChild]: [null] when there is no child. *)
Definition firstChild (parent : Element) : ChildRef :=
  match elChildNodes parent with
  | [] => None
  | _ :: _ => Some 0%nat
  end.

(** [parent.insertBefore(newNode, ref)].  With [ref = null] the node is
    appended.  The second component is where the reference node sits after the
    insertion, so that a later call can name the same node again. *)
Definition insertBefore (parent : Element) (newNode : Node) (ref : ChildRef)
  : Element * ChildRef :=
  match ref with
  | None =>
      (mkElement (elLocalName parent) (elClassName parent) (elStyle parent)
                 (elChildNodes parent ++ [newNode]), None)
  | Some i =>
      (mkElement (elLocalName parent) (elClassName parent) (elStyle parent)
                 (take i (elChildNodes parent) ++ newNode
                    :: drop i (elChildNodes parent)), Some (S i))
  end.

(** A [Text] object found in the tree: where it is and what it holds. *)
Record TextRef : Type := mkTextRef {
  textPath : Path;
  textData : JsString
}.

(** [for (let i = 0; i < node.childNodes.length; i++)] with an early exit on
    the first result. *)
Fixpoint firstResult {A} (f : nat -> Node -> option A) (i : nat)
    (children : list Node) : option A :=
  match children with
  | [] => None
  | c :: rest =>
      match f i c with
      | Some r => Some r
      | None => firstResult f (S i) rest
      end
  end.

(** The same loop run for its effect on an accumulator. *)
Fixpoint forEachChild {A} (f : nat -> Node -> A -> A) (i : nat)
    (children : list Node) (acc : A) : A :=
  match children with
  | [] => acc
  | c :: rest => forEachChild f (S i) rest (f i c acc)
  end.

(** The helper [findFirstTextNode] of the post-layout hook; [here] is the
    position of [node]. *)
Fixpoint findFirstTextNode (here : Path) (node : Node) : option TextRef :=
  match node with
  | TextNode text =>
      if (0 <? length (trim text))%nat then Some (mkTextRef here text)
      else None
  | CommentNode _ => None
  | ElementNode _ _ _ children =>
      firstResult (fun i c => findFirstTextNode (here ++ [i]) c) 0 children
  end.

(** The helper [collectTextNodes] of the post-layout hook; [textNodes.push]
    appends. *)
Fixpoint collectTextNodes (here : Path) (node : Node)
    (textNodes : list TextRef) : list TextRef :=
  match node with
  | TextNode text =>
      if (0 <? length (trim text))%nat
      then textNodes ++ [mkTextRef here text]
      else textNodes
  | CommentNode _ => textNodes
  | ElementNode _ _ _ children =>
      forEachChild (fun i c acc => collectTextNodes (here ++ [i]) c acc)
                   0 children textNodes
  end.

(** ** The hooks *)

Section Hooks.
Context {num : Type} `{JsNumber num}.

(** JavaScript truthiness of a stored value. *)
Definition truthy (v : JsValue num) : bool :=
  match v with
  | VString s => negb (String.eqb s "")
  | VNumber n => num_truthy n
  | VInt z => negb (z =? 0)
  | VObject _ => true
  | VNull => false
  end.

(** [v === s] for a string literal [s]. *)
Definition strictEqualsString (v : JsValue num) (s : string) : bool :=
  match v with
  | VString s' => String.eqb s' s
  | _ => false
  end.

Definition styleTruthy (v : StyleValue) : bool :=
  match v with
  | SIdent _ => true
  | SString s => negb (String.eqb s "")
  | SOther _ => true
  | SFalsy => false
  end.

(** Hook 1, [PREPROCESS_ELEMENT_STYLE]. *)
Definition preprocessElementStyleHook (nodeContext : NodeContext num)
    (style : gmap string StyleValue) : NodeContext num :=
  match style !! HANGING_INDENT_PROP with
  | None => nodeContext
  | Some value =>
      if styleTruthy value then
        let stringValue :=
          match value with
          | SIdent name => name
          | SString s => s
          | SOther str => str
          | SFalsy => ""
          end in
        let props :=
          match inheritedProps nodeContext with
          | Some props => props
          | None => ∅
          end in
        mkNodeContext (viewNode nodeContext) (inline nodeContext)
          (fragmentIndex nodeContext)
          (Some (<[HANGING_INDENT_PROP := VString stringValue]> props))
          (pluginProps nodeContext)
      else nodeContext
  end.

(** [for (const rect of rects) firstWordWidth += rect.width] *)
Definition addWidths (rects : list (Rect num)) (firstWordWidth : num) : num :=
  fold_left (fun w rect => num_add w (width rect)) rects firstWordWidth.

(** [for (const rect of rects) lineYPositions.add(Math.round(rect.top))] *)
Definition addLineYs (rects : list (Rect num)) (lineYPositions : gset Z)
  : gset Z :=
  fold_left (fun ys rect => {[ Math_round (top rect) ]} ∪ ys)
            rects lineYPositions.

(** Lines 149-167: the width of the first word and the space after it. *)
Definition measureFirstWord (column : Column num) (blockElement : Element)
    (firstTextNode : option TextRef) : num :=
  match firstTextNode with
  | Some t =>
      match matchFirstWord (textData t) with
      | Some firstWordWithSpace =>
          let range :=
            RangeOffsets (textPath t) 0 (length firstWordWithSpace) in
          let rects :=
            getRangeClientRects (clientLayout column) blockElement range in
          addWidths rects num_zero
      | None => num_zero
      end
  | None => num_zero
  end.

(** Lines 176-206: the rounded tops of the rectangles of every text node. *)
Definition measureLines (column : Column num) (blockElement : Element)
  : gset Z :=
  let textNodes := collectTextNodes [] (nodeOfElement blockElement) [] in
  fold_left
    (fun lineYPositions textNode =>
       let range := RangeSelectNode (textPath textNode) in
       let rects :=
         getRangeClientRects (clientLayout column) blockElement range in
       addLineYs rects lineYPositions)
    textNodes ∅.

(** Lines 224-229. *)
Definition floatSpacer : Element :=
  setStyle "line-height" "inherit"
    (setStyle "height" "1.5rlh"
       (setStyle "width" "0"
          (setStyle "float" "inline-start"
             (setClassName "vivliostyle-hanging-indent-spacer"
                (createElement "span"))))).

(** Lines 233-238. *)
Definition floatIndent (firstWordWidth : num) : Element :=
  setStyle "height" "1px"
    (setStyle "width" (num_toString firstWordWidth ++ "px")%string
       (setStyle "clear" "inline-start"
          (setStyle "float" "inline-start"
             (setClassName "vivliostyle-hanging-indent-pusher"
                (createElement "span"))))).

(** Lines 240-243: both markers go before the node that was first. *)
Definition insertMarkers (blockElement : Element) (firstWordWidth : num)
  : Element :=
  let firstChild := firstChild blockElement in
  let '(blockElement, firstChild) :=
    insertBefore blockElement (nodeOfElement floatSpacer) firstChild in
  let '(blockElement, _) :=
    insertBefore blockElement (nodeOfElement (floatIndent firstWordWidth))
                 firstChild in
  blockElement.

(** Lines 250-255. *)
Definition storeDiagnostics (pluginProps : option (Props num))
    (firstWordWidth : num) (lineCount : nat) : Props num :=
  let pluginProps :=
    match pluginProps with
    | Some props => props
    | None => ∅
    end in
  let pluginProps := <["torahWindow:applied" := VInt 1]> pluginProps in
  let pluginProps :=
    <["torahWindow:width" := VNumber firstWordWidth]> pluginProps in
  <["torahWindow:lineCount" := VInt (Z.of_nat lineCount)]> pluginProps.

(** Hook 2, [POST_LAYOUT_BLOCK], on a node context that is an object.  Every
    [return] of the source is a branch that gives the node context back as
    it came; the test [!nodeContext] of line 69 is false on an object.  The
    call with a node context that may be [null] is [invokePostLayoutBlock]
    below. *)
Definition postLayoutBlockHangingIndent (nodeContext : NodeContext num)
    (checkPoints : list (NodeContext num)) (column : Column num)
  : NodeContext num :=
  if (length checkPoints =? 0)%nat then nodeContext else
  if inline nodeContext then nodeContext else
  if 1 <? fragmentIndex nodeContext then nodeContext else
  match inheritedProps nodeContext with
  | None => nodeContext
  | Some inheritedProps =>
  match inheritedProps !! HANGING_INDENT_PROP with
  | None => nodeContext
  | Some hangingIndentValue =>
  if negb (truthy hangingIndentValue) then nodeContext else
  if negb (strictEqualsString hangingIndentValue "first-word")
  then nodeContext else
  match viewNode nodeContext with
  | None => nodeContext
  | Some blockElement =>
  let firstTextNode := findFirstTextNode [] (nodeOfElement blockElement) in
  let firstWordWidth := measureFirstWord column blockElement firstTextNode in
  if negb (bool_decide (is_Some firstTextNode)) || num_is_zero firstWordWidth
  then nodeContext else
  let lineYPositions := measureLines column blockElement in
  let lineCount := size lineYPositions in
  if (lineCount <? 2)%nat then nodeContext else
  let blockElement := insertMarkers blockElement firstWordWidth in
  let pluginProps :=
    storeDiagnostics (pluginProps nodeContext) firstWordWidth lineCount in
  mkNodeContext (Some blockElement) (inline nodeContext)
    (fragmentIndex nodeContext) (Some inheritedProps) (Some pluginProps)
  end end end.

(** An exception of the JavaScript run time. *)
Inductive JsError : Type :=
| TypeError.

(** How a call of the hook ends: it returns, having left the node context in
    some state, or it throws. *)
Inductive Outcome : Type :=
| Returned (nodeContext : NodeContext num)
| Threw (error : JsError).

(** The post-layout hook as the host calls it, with a node context that may
    be [null] (lines 59-256).  The first statement (lines 64-66) builds a log
    message from [nodeContext.viewNode?.nodeName] and [nodeContext.inline]:
    on [null] reading a property throws a [TypeError], and the test
    [!nodeContext] of line 69 is not reached.  On an object the statement
    logs and the rest of the body runs. *)
Definition invokePostLayoutBlock (nodeContext : option (NodeContext num))
    (checkPoints : list (NodeContext num)) (column : Column num)
  : Outcome :=
  match nodeContext with
  | None => Threw TypeError
  | Some nodeContext =>
      Returned (postLayoutBlockHangingIndent nodeContext checkPoints column)
  end.

(** ** Notions used to state the properties *)

(** The eligibility gate at the entry of the post-layout hook: some
    checkpoint, a block-level node, the first fragment, and the inherited
    value ["first-word"] under the recognised key. *)
Definition passesGate (nodeContext : NodeContext num)
    (checkPoints : list (NodeContext num)) : Prop :=
  checkPoints <> [] /\
  inline nodeContext = false /\
  fragmentIndex nodeContext <= 1 /\
  exists props,
    inheritedProps nodeContext = Some props /\
    props !! HANGING_INDENT_PROP = Some (VString "first-word").

(** What a run on [blockElement] takes as its first text node and as the
    width of the first word. *)
Definition firstTextNodeOf (blockElement : Element) : option TextRef :=
  findFirstTextNode [] (nodeOfElement blockElement).

Definition firstWordWidthOf (column : Column num) (blockElement : Element)
  : num :=
  measureFirstWord column blockElement (firstTextNodeOf blockElement).

(** Every rounded [top] the measurement reports for the non-empty text nodes
    of the block, in the order the hook meets them. *)
Definition observedTops (column : Column num) (blockElement : Element)
  : list Z :=
  flat_map
    (fun textNode =>
       map (fun rect => Math_round (top rect))
           (getRangeClientRects (clientLayout column) blockElement
              (RangeSelectNode (textPath textNode))))
    (collectTextNodes [] (nodeOfElement blockElement) []).

(** How many different values a list holds. *)
Definition countDistinct (l : list Z) : nat := length (remove_dups l).

(** The node context after a complete run on [blockElement] that measured
    [firstWordWidth] and [lineCount]: two markers in front of the children,
    three diagnostics in [pluginProps], nothing else touched. *)
Definition transformed (nodeContext : NodeContext num)
    (blockElement : Element) (firstWordWidth : num) (lineCount : nat)
  : NodeContext num :=
  mkNodeContext
    (Some (mkElement (elLocalName blockElement) (elClassName blockElement)
             (elStyle blockElement)
             (nodeOfElement floatSpacer
                :: nodeOfElement (floatIndent firstWordWidth)
                :: elChildNodes blockElement)))
    (inline nodeContext) (fragmentIndex nodeContext)
    (inheritedProps nodeContext)
    (Some (<["torahWindow:lineCount" := VInt (Z.of_nat lineCount)]>
             (<["torahWindow:width" := VNumber firstWordWidth]>
                (<["torahWindow:applied" := VInt 1]>
                   (default ∅ (pluginProps nodeContext)))))).

End Hooks.

Arguments measureFirstWord : simpl never.
Arguments measureLines : simpl never.
Arguments insertMarkers : simpl never.
Arguments storeDiagnostics : simpl never.

(** The language of the pattern [\s*\S+\s+]. *)
Definition inPattern (m : JsString) : Prop :=
  exists lead word gap,
    m = lead ++ word ++ gap /\
    forallb isWhiteSpace lead = true /\
    forallb (fun c => negb (isWhiteSpace c)) word = true /\ word <> [] /\
    forallb isWhiteSpace gap = true /\ gap <> [].

(** The plain text the style hook stores for a style value: the name of an
    identifier, a string itself, the [toString()] of anything else. *)
Definition normalizedString (v : StyleValue) : string :=
  match v with
  | SIdent name => name
  | SString s => s
  | SOther str => str
  | SFalsy => ""
  end.

(** The match the pattern [/^(\s*\S+\s+)/] selects in [text]: a prefix of the
    text that belongs to the pattern and, the quantifiers being greedy,
    extends every other such prefix. *)
Definition FirstWordMatch (text m : JsString) : Prop :=
  m `prefix_of` text /\ inPattern m /\
  forall m', m' `prefix_of` text -> inPattern m' -> m' `prefix_of` m.

(** Induction on a node, with the children of an element covered. *)
Section NodeInduction.
Variable P : Node -> Prop.
Hypothesis Htext : forall text, P (TextNode text).
Hypothesis Hcomment : forall data, P (CommentNode data).
Hypothesis Helement : forall name cls sty children,
  Forall P children -> P (ElementNode name cls sty children).

Fixpoint Node_nested_ind (node : Node) : P node :=
  match node with
  | TextNode text => Htext text
  | CommentNode data => Hcomment data
  | ElementNode name cls sty children =>
      Helement name cls sty children
        ((fix all (l : list Node) : Forall P l :=
            match l with
            | [] => Forall_nil_2 P
            | c :: l' => Forall_cons_2 P c l' (Node_nested_ind c) (all l')
            end) children)
  end.

End NodeInduction.

(** ** A block to run the hooks on *)

Module Paragraph.

(** [<p>Hello world, this wraps.</p>] *)
Definition helloBlock : Element :=
  mkElement "p" "" ∅ [TextNode (utf16 "Hello world, this wraps.")].

(** A layout where every code unit is 5px wide and the paragraph wraps once:
    a range inside a text node is one rectangle on the first line, a whole
    text node is a rectangle on the line at 0 and one on the line at 20. *)
Definition twoLines : Column Z :=
  mkColumn (mkClientLayout (fun _ range =>
    match range with
    | RangeOffsets _ s e => [mkRect 0 (5 * (Z.of_nat e - Z.of_nat s))]
    | RangeSelectNode _ => [mkRect 0 120; mkRect 20 60]
    end)).

(** The same text on a single line. *)
Definition oneLine : Column Z :=
  mkColumn (mkClientLayout (fun _ range =>
    match range with
    | RangeOffsets _ s e => [mkRect 0 (5 * (Z.of_nat e - Z.of_nat s))]
    | RangeSelectNode _ => [mkRect 0 120]
    end)).

(** The node context of a block: first fragment, with the given inherited
    properties and no plugin properties yet. *)
Definition blockContext (blockElement : Element)
    (inherited : option (Props Z)) : NodeContext Z :=
  mkNodeContext (Some blockElement) false 1 inherited None.

Definition firstWordProps : Props Z :=
  {[ HANGING_INDENT_PROP := VString "first-word" ]}.

Definition helloContext : NodeContext Z :=
  blockContext helloBlock (Some firstWordProps).

(** [<p>Hello</p>]: a word with no white space after it. *)
Definition wordBlock : Element :=
  mkElement "p" "" ∅ [TextNode (utf16 "Hello")].

Definition wordContext : NodeContext Z :=
  blockContext wordBlock (Some firstWordProps).

(** The paragraph styled [hanging-indent: none]. *)
Definition noneContext : NodeContext Z :=
  blockContext helloBlock (Some {[ HANGING_INDENT_PROP := VString "none" ]}).

(** The second fragment of the paragraph. *)
Definition laterFragment : NodeContext Z :=
  mkNodeContext (Some helloBlock) false 2 (Some firstWordProps) None.

(** A resolved style map with [hanging-indent: first-word]. *)
Definition firstWordStyle : gmap string StyleValue :=
  {[ HANGING_INDENT_PROP := SIdent "first-word" ]}.

End Paragraph.

(** ** Notions for the properties of the tree walks *)

(** The node at a position below [node]. *)
Fixpoint nodeAt (node : Node) (p : Path) : option Node :=
  match p with
  | [] => Some node
  | i :: rest =>
      match node with
      | ElementNode _ _ _ children =>
          match children !! i with
          | Some c => nodeAt c rest
          | None => None
          end
      | _ => None
      end
  end.

(** The test both walks apply to a text node: [text.trim().length > 0]. *)
Definition nonBlank (text : JsString) : bool :=
  (0 <? length (trim text))%nat.

(** A text reference seen from [here] levels up. *)
Definition under (here : Path) (t : TextRef) : TextRef :=
  mkTextRef (here ++ textPath t) (textData t).

(** Where a node of the block sits once two nodes stand in front of the
    children of the block. *)
Definition shiftPath (p : Path) : Path :=
  match p with
  | [] => []
  | i :: rest => S (S i) :: rest
  end.

Definition shiftText (t : TextRef) : TextRef :=
  mkTextRef (shiftPath (textPath t)) (textData t).

Definition shiftRange (range : Range) : Range :=
  match range with
  | RangeOffsets node s e => RangeOffsets (shiftPath node) s e
  | RangeSelectNode node => RangeSelectNode (shiftPath node)
  end.

(** A layout that the two markers do not disturb: every range measures on the
    block with the markers what it measured on the block without them. *)
Definition stableUnderMarkers {num : Type} `{JsNumber num}
    (column : Column num) (blockElement : Element) (W : num) : Prop :=
  forall range,
    getRangeClientRects (clientLayout column)
      (insertMarkers blockElement W) (shiftRange range)
    = getRangeClientRects (clientLayout column) blockElement range.

(** How many rectangles the measurement of the text nodes returns. *)
Definition rectangleCount {num : Type} `{JsNumber num}
    (column : Column num) (blockElement : Element) : nat :=
  length (observedTops column blockElement).

(** ** More blocks to run the hooks on *)

Module Blocks.

(** [<p>  <b> </b><!--note--></p>]: white space only. *)
Definition blankBlock : Element :=
  mkElement "p" "" ∅
    [TextNode (utf16 "  ");
     ElementNode "b" "" ∅ [TextNode (utf16 " ")];
     CommentNode (utf16 "note")].

(** [<p> <b>Hello </b>world</p>]: the first visible text is nested. *)
Definition nestedBlock : Element :=
  mkElement "p" "" ∅
    [TextNode (utf16 " ");
     ElementNode "b" "" ∅ [TextNode (utf16 "Hello ")];
     TextNode (utf16 "world")].

(** [<p>Hello<b> world, this wraps.</b></p>]: the first text node is one
    word, the white space after it sits in the next node. *)
Definition splitBlock : Element :=
  mkElement "p" "" ∅
    [TextNode (utf16 "Hello");
     ElementNode "b" "" ∅ [TextNode (utf16 " world, this wraps.")]].

(** The paragraph of [Paragraph] as an inline-level node. *)
Definition inlineContext : NodeContext Z :=
  mkNodeContext (Some Paragraph.helloBlock) true 1
    (Some Paragraph.firstWordProps) None.


(** A layout that reports one rectangle in all for the text of a block. *)
Definition oneRect : Column Z :=
  mkColumn (mkClientLayout (fun _ range =>
    match range with
    | RangeOffsets _ s e => [mkRect 0 (5 * (Z.of_nat e - Z.of_nat s))]
    | RangeSelectNode _ => [mkRect 0 120]
    end)).

(** A node context that already carries [first-word] from an ancestor. *)
Definition inheritingContext : NodeContext Z :=
  Paragraph.helloContext.

(** Resolved style maps. *)
Definition noneStyle : gmap string StyleValue :=
  {[ HANGING_INDENT_PROP := SIdent "none" ]}.

Definition stringStyle : gmap string StyleValue :=
  {[ HANGING_INDENT_PROP := SString "first-word" ]}.

End Blocks.

(** * Properties *)

(** ** The marker insertion *)

Section InsertMarkers.
Context {num : Type} `{JsNumber num}.

Lemma insertMarkers_eq (blockElement : Element) (w : num) :
  insertMarkers blockElement w =
  mkElement (elLocalName blockElement) (elClassName blockElement)
    (elStyle blockElement)
    (nodeOfElement floatSpacer :: nodeOfElement (floatIndent w)
       :: elChildNodes blockElement).
Proof.
  unfold insertMarkers, firstChild.
  destruct blockElement as [name cls sty [|c cs]]; reflexivity.
Qed.

Lemma storeDiagnostics_eq (pp : option (Props num)) (w : num) (n : nat) :
  storeDiagnostics pp w n =
  <["torahWindow:lineCount" := VInt (Z.of_nat n)]>
    (<["torahWindow:width" := VNumber w]>
       (<["torahWindow:applied" := VInt 1]> (default ∅ pp))).
Proof. destruct pp; reflexivity. Qed.

End InsertMarkers.

(** ** The line set *)

Section LineSet.
Context {num : Type} `{JsNumber num}.

Lemma addLineYs_spec (rects : list (Rect num)) (ys : gset Z) :
  addLineYs rects ys =
  list_to_set (map (fun rect => Math_round (top rect)) rects) ∪ ys.
Proof.
  unfold addLineYs. revert ys.
  induction rects as [|r rects IH]; intros ys; simpl.
  - set_solver.
  - rewrite IH. set_solver.
Qed.

Lemma measureLines_spec (column : Column num) (blockElement : Element) :
  measureLines column blockElement =
  list_to_set (observedTops column blockElement).
Proof.
  unfold measureLines, observedTops.
  generalize (collectTextNodes [] (nodeOfElement blockElement) []).
  intros ts.
  assert (Hgen : forall acc : gset Z,
    fold_left
      (fun lineYPositions textNode =>
         addLineYs
           (getRangeClientRects (clientLayout column) blockElement
              (RangeSelectNode (textPath textNode))) lineYPositions) ts acc =
    list_to_set
      (flat_map
         (fun textNode =>
            map (fun rect => Math_round (top rect))
              (getRangeClientRects (clientLayout column) blockElement
                 (RangeSelectNode (textPath textNode)))) ts) ∪ acc).
  { induction ts as [|t ts IH]; intros acc; simpl.
    - set_solver.
    - rewrite IH, addLineYs_spec, list_to_set_app_L. set_solver. }
  rewrite Hgen. set_solver.
Qed.

(** The size of the line set is the number of different rounded tops. *)
Lemma lineCount_distinct (column : Column num) (blockElement : Element) :
  size (measureLines column blockElement) =
  countDistinct (observedTops column blockElement).
Proof.
  rewrite measureLines_spec. unfold countDistinct.
  rewrite <- (size_list_to_set (C := gset Z) (remove_dups _))
    by apply NoDup_remove_dups.
  f_equal. apply set_eq. intros y.
  rewrite !elem_of_list_to_set, elem_of_remove_dups. reflexivity.
Qed.

End LineSet.

(** ** The control flow of the post-layout hook *)

Section ControlFlow.
Context {num : Type} `{JsNumber num}.

Implicit Types (nodeContext : NodeContext num)
  (checkPoints : list (NodeContext num)) (column : Column num).

(** The hook past the tests on the node context itself. *)
Lemma postLayout_past_gate nodeContext checkPoints column blockElement :
  passesGate nodeContext checkPoints ->
  viewNode nodeContext = Some blockElement ->
  postLayoutBlockHangingIndent nodeContext checkPoints column =
  if negb (bool_decide (is_Some (firstTextNodeOf blockElement)))
     || num_is_zero (firstWordWidthOf column blockElement)
  then nodeContext
  else if (size (measureLines column blockElement) <? 2)%nat
  then nodeContext
  else transformed nodeContext blockElement
         (firstWordWidthOf column blockElement)
         (size (measureLines column blockElement)).
Proof.
  intros (Hcp & Hinl & Hfrag & props & Hprops & Hval) Hview.
  unfold postLayoutBlockHangingIndent, transformed.
  destruct checkPoints as [|cp cps]; [congruence|].
  change (length (cp :: cps) =? 0)%nat with false. cbv iota.
  rewrite Hinl.
  destruct (Z.ltb_spec 1 (fragmentIndex nodeContext)) as [?|_]; [lia|].
  rewrite Hprops, Hval, Hview. cbn [truthy strictEqualsString negb].
  change (String.eqb "first-word" "") with false.
  change (String.eqb "first-word" "first-word") with true.
  cbn [negb]. cbv zeta.
  rewrite insertMarkers_eq, storeDiagnostics_eq. reflexivity.
Qed.

(** A run that gets past every [return] produces [transformed]. *)
Lemma postLayout_applies nodeContext checkPoints column blockElement :
  passesGate nodeContext checkPoints ->
  viewNode nodeContext = Some blockElement ->
  num_is_zero (firstWordWidthOf column blockElement) = false ->
  (2 <= size (measureLines column blockElement))%nat ->
  postLayoutBlockHangingIndent nodeContext checkPoints column =
  transformed nodeContext blockElement
    (firstWordWidthOf column blockElement)
    (size (measureLines column blockElement)).
Proof.
  intros Hgate Hview Hw Hlines.
  rewrite (postLayout_past_gate _ _ _ _ Hgate Hview).
  assert (Hfirst : is_Some (firstTextNodeOf blockElement)).
  { destruct (firstTextNodeOf blockElement) eqn:Hf; [eauto|].
    unfold firstWordWidthOf, measureFirstWord in Hw. rewrite Hf in Hw.
    rewrite num_zero_is_zero in Hw. discriminate. }
  rewrite bool_decide_eq_true_2 by exact Hfirst. rewrite Hw.
  destruct (Nat.ltb_spec (size (measureLines column blockElement)) 2)
    as [?|_]; [lia|reflexivity].
Qed.

(** Every run either gives the node context back or is a complete run. *)
Lemma postLayout_cases nodeContext checkPoints column :
  postLayoutBlockHangingIndent nodeContext checkPoints column = nodeContext \/
  exists blockElement,
    passesGate nodeContext checkPoints /\
    viewNode nodeContext = Some blockElement /\
    num_is_zero (firstWordWidthOf column blockElement) = false /\
    (2 <= size (measureLines column blockElement))%nat /\
    postLayoutBlockHangingIndent nodeContext checkPoints column =
    transformed nodeContext blockElement
      (firstWordWidthOf column blockElement)
      (size (measureLines column blockElement)).
Proof.
  destruct checkPoints as [|cp cps] eqn:Hcps; [left; reflexivity|].
  unfold postLayoutBlockHangingIndent.
  change (length (cp :: cps) =? 0)%nat with false. cbv iota.
  destruct (inline nodeContext) eqn:Hinl; [left; reflexivity|].
  destruct (Z.ltb_spec 1 (fragmentIndex nodeContext)) as [Hfrag|Hfrag];
    [left; reflexivity|].
  destruct (inheritedProps nodeContext) as [props|] eqn:Hprops;
    [|left; reflexivity].
  destruct (props !! HANGING_INDENT_PROP) as [v|] eqn:Hval;
    [|left; reflexivity].
  destruct (truthy v) eqn:Htruthy; [|left; reflexivity].
  destruct (strictEqualsString v "first-word") eqn:Heq; [|left; reflexivity].
  destruct (viewNode nodeContext) as [blockElement|] eqn:Hview;
    [|left; reflexivity].
  cbn [negb]. cbv zeta.
  assert (Hv : v = VString "first-word").
  { destruct v as [s| | | |]; try discriminate Heq.
    simpl in Heq. apply String.eqb_eq in Heq. congruence. }
  subst v.
  assert (Hgate : passesGate nodeContext (cp :: cps)).
  { repeat split; [discriminate|assumption|assumption|eauto]. }
  fold (firstTextNodeOf blockElement).
  fold (firstWordWidthOf column blockElement).
  destruct (negb (bool_decide (is_Some (firstTextNodeOf blockElement))));
    [left; reflexivity|]. cbn [orb].
  destruct (num_is_zero (firstWordWidthOf column blockElement)) eqn:Hzero;
    [left; reflexivity|].
  destruct (Nat.ltb_spec (size (measureLines column blockElement)) 2)
    as [Hlt|Hge]; [left; reflexivity|].
  right. exists blockElement.
  split; [exact Hgate|]. split; [reflexivity|].
  split; [exact Hzero|]. split; [exact Hge|].
  rewrite insertMarkers_eq, storeDiagnostics_eq. unfold transformed.
  rewrite Hprops, Hinl. reflexivity.
Qed.

(** A complete run changes the node context. *)
Lemma transformed_neq nodeContext blockElement (w : num) (n : nat) :
  viewNode nodeContext = Some blockElement ->
  transformed nodeContext blockElement w n <> nodeContext.
Proof.
  intros Hview Heq.
  apply (f_equal viewNode) in Heq. simpl in Heq. rewrite Hview in Heq.
  injection Heq as Heq. apply (f_equal elChildNodes) in Heq. simpl in Heq.
  apply (f_equal length) in Heq. simpl in Heq. lia.
Qed.

End ControlFlow.

(** ** Scanning a text *)

Section Scanning.
Context {A : Type} (p : A -> bool).

Lemma takeWhile_dropWhile (l : list A) :
  takeWhile p l ++ dropWhile p l = l.
Proof.
  induction l as [|x l IH]; simpl; [reflexivity|].
  destruct (p x); simpl; [rewrite IH|]; reflexivity.
Qed.

Lemma takeWhile_all (l : list A) : forallb p (takeWhile p l) = true.
Proof.
  induction l as [|x l IH]; simpl; [reflexivity|].
  destruct (p x) eqn:Hx; simpl; [rewrite Hx; exact IH|reflexivity].
Qed.

Lemma takeWhile_app (a r : list A) :
  forallb p a = true -> takeWhile p (a ++ r) = a ++ takeWhile p r.
Proof.
  induction a as [|x a IH]; simpl; [reflexivity|].
  intros [Hx Ha]%andb_true_iff. rewrite Hx, IH by exact Ha. reflexivity.
Qed.

Lemma dropWhile_app (a r : list A) :
  forallb p a = true -> dropWhile p (a ++ r) = dropWhile p r.
Proof.
  induction a as [|x a IH]; simpl; [reflexivity|].
  intros [Hx Ha]%andb_true_iff. rewrite Hx. apply IH, Ha.
Qed.

Lemma drop_takeWhile_length (l : list A) :
  drop (length (takeWhile p l)) l = dropWhile p l.
Proof.
  induction l as [|x l IH]; simpl; [reflexivity|].
  destruct (p x); simpl; [exact IH|reflexivity].
Qed.

(** Inside a run of [p], no character of a class disjoint from [p] starts. *)
Lemma takeWhile_inside_run (q : A -> bool) (l : list A) (j : nat) :
  (forall x, p x = true -> q x = false) ->
  (j < length (takeWhile p l))%nat ->
  takeWhile q (drop j l) = [].
Proof.
  intros Hq. revert j.
  induction l as [|x l IH]; intros j; simpl; [lia|].
  destruct (p x) eqn:Hx; simpl; [|lia].
  destruct j as [|j]; simpl.
  - now rewrite (Hq _ Hx).
  - intros Hj. apply IH. lia.
Qed.

End Scanning.

Lemma backtrack_Some (k min n : nat) (continue : JsString -> option nat)
    (text : JsString) :
  (min <= k)%nat -> continue (drop k text) = Some n ->
  backtrack k min continue text = Some (k + n)%nat.
Proof.
  intros Hmin Hcont.
  destruct k as [|k]; cbn [backtrack];
    match goal with
    | |- context [(?a <? ?b)%nat] =>
        destruct (Nat.ltb_spec0 a b) as [Hlt|_]; [lia|]
    end;
    now rewrite Hcont.
Qed.

Lemma backtrack_None (k min : nat) (continue : JsString -> option nat)
    (text : JsString) :
  (forall j, (min <= j <= k)%nat -> continue (drop j text) = None) ->
  backtrack k min continue text = None.
Proof.
  induction k as [|k IH]; intros Hnone; cbn [backtrack];
    match goal with
    | |- context [(?a <? ?b)%nat] =>
        destruct (Nat.ltb_spec0 a b) as [|Hge]; [reflexivity|]
    end.
  - rewrite (Hnone 0%nat) by lia. reflexivity.
  - rewrite (Hnone (S k)) by lia. apply IH. intros j Hj. apply Hnone. lia.
Qed.

Lemma negb_all_head (word : JsString) :
  forallb (fun c => negb (isWhiteSpace c)) word = true -> word <> [] ->
  exists c rest, word = c :: rest /\ isWhiteSpace c = false.
Proof.
  destruct word as [|c rest]; [congruence|].
  simpl. intros [Hc _]%andb_true_iff _.
  exists c, rest. split; [reflexivity|]. now apply negb_true_iff.
Qed.

Lemma all_head (gap : JsString) :
  forallb isWhiteSpace gap = true -> gap <> [] ->
  exists c rest, gap = c :: rest /\ isWhiteSpace c = true.
Proof.
  destruct gap as [|c rest]; [congruence|].
  simpl. intros [Hc _]%andb_true_iff _. eauto.
Qed.

(** What [scanFirstWord] returns is a prefix of the text and belongs to the
    pattern. *)
Lemma scanFirstWord_sound (text m : JsString) :
  scanFirstWord text = Some m -> m `prefix_of` text /\ inPattern m.
Proof.
  unfold scanFirstWord.
  set (isWord := fun c => negb (isWhiteSpace c)).
  set (lead := takeWhile isWhiteSpace text).
  set (rest := dropWhile isWhiteSpace text).
  set (word := takeWhile isWord rest).
  set (rest' := dropWhile isWord rest).
  set (gap := takeWhile isWhiteSpace rest').
  intros Hm.
  assert (Hword : word <> []) by (intros E; rewrite E in Hm; discriminate).
  assert (Hgap : gap <> []).
  { intros E. rewrite E in Hm. destruct word; discriminate. }
  assert (Hres : m = lead ++ word ++ gap).
  { destruct word; [congruence|]. destruct gap; [congruence|]. congruence. }
  split.
  - exists (dropWhile isWhiteSpace rest'). subst m.
    rewrite <- !(assoc_L (++)).
    unfold gap. rewrite takeWhile_dropWhile.
    unfold word, rest'. rewrite takeWhile_dropWhile.
    unfold lead, rest. now rewrite takeWhile_dropWhile.
  - exists lead, word, gap. repeat split; try assumption.
    + apply takeWhile_all.
    + apply (takeWhile_all isWord).
    + apply takeWhile_all.
Qed.

(** Whenever some prefix of the text belongs to the pattern,
    [scanFirstWord] succeeds and returns that prefix extended by the white
    space that follows it. *)
Lemma scanFirstWord_complete (text m : JsString) :
  m `prefix_of` text -> inPattern m ->
  exists more, scanFirstWord text = Some (m ++ more).
Proof.
  intros [tail Htext] (lead & word & gap & Hm & Hlead & Hword & Hne & Hgap & Hne').
  destruct (negb_all_head word Hword Hne) as (w & word' & Ew & Hw).
  destruct (all_head gap Hgap Hne') as (g & gap' & Eg & Hg).
  exists (takeWhile isWhiteSpace tail).
  unfold scanFirstWord.
  assert (E1 : text = lead ++ (word ++ gap ++ tail)).
  { rewrite Htext, Hm. now rewrite <- !(assoc_L (++)). }
  rewrite E1. cbv zeta.
  rewrite (takeWhile_app _ lead _ Hlead), (dropWhile_app _ lead _ Hlead).
  assert (E2 : takeWhile isWhiteSpace (word ++ gap ++ tail) = []).
  { rewrite Ew. simpl. now rewrite Hw. }
  assert (E3 : dropWhile isWhiteSpace (word ++ gap ++ tail)
               = word ++ gap ++ tail).
  { rewrite Ew. simpl. now rewrite Hw. }
  rewrite E2, E3.
  rewrite (takeWhile_app _ word _ Hword), (dropWhile_app _ word _ Hword).
  assert (E4 : takeWhile (fun c => negb (isWhiteSpace c)) (gap ++ tail) = []).
  { rewrite Eg. simpl. now rewrite Hg. }
  assert (E5 : dropWhile (fun c => negb (isWhiteSpace c)) (gap ++ tail)
               = gap ++ tail).
  { rewrite Eg. simpl. now rewrite Hg. }
  rewrite E4, E5, (takeWhile_app _ gap _ Hgap).
  rewrite !app_nil_r. subst word gap m. simpl.
  f_equal. repeat (rewrite <- app_assoc; simpl). reflexivity.
Qed.

(** ** The two tree walks *)

(** Collecting pushes onto the array it is given. *)
Lemma collectTextNodes_acc (node : Node) :
  forall here acc,
    collectTextNodes here node acc = acc ++ collectTextNodes here node [].
Proof.
  induction node as [text|data|name cls sty children IH]
    using Node_nested_ind; intros here acc; simpl.
  - destruct (0 <? length (trim text))%nat; simpl;
      [reflexivity|now rewrite app_nil_r].
  - now rewrite app_nil_r.
  - generalize 0%nat. revert acc.
    induction IH as [|c cs Hc _ IHcs]; intros acc i; simpl.
    + now rewrite app_nil_r.
    + rewrite IHcs, (IHcs (collectTextNodes _ c [])), (Hc _ acc).
      now rewrite <- app_assoc.
Qed.

(** The first text node is the first of the collected text nodes. *)
Lemma findFirstTextNode_head (node : Node) :
  forall here,
    findFirstTextNode here node = head (collectTextNodes here node []).
Proof.
  induction node as [text|data|name cls sty children IH]
    using Node_nested_ind; intros here; simpl.
  - destruct (0 <? length (trim text))%nat; reflexivity.
  - reflexivity.
  - generalize 0%nat.
    induction IH as [|c cs Hc _ IHcs]; intros i; simpl; [reflexivity|].
    rewrite (collectTextNodes_acc _ (here ++ [i]) []). simpl.
    match goal with
    | |- context [forEachChild ?f ?j cs ?a] =>
        assert (Hacc : forall k acc,
          forEachChild f k cs acc = acc ++ forEachChild f k cs [])
    end.
    { clear. induction cs as [|d ds IHds]; intros k acc; simpl.
      - now rewrite app_nil_r.
      - rewrite IHds, (IHds _ (collectTextNodes _ d [])),
          (collectTextNodes_acc d _ acc).
        now rewrite <- app_assoc. }
    rewrite Hacc, Hc.
    destruct (collectTextNodes (here ++ [i]) c []) as [|t ts]; simpl.
    + apply IHcs.
    + reflexivity.
Qed.

(** ** The match of the pattern *)

(** The backtracking match and the scan agree. *)
Lemma matchFirstWord_scan (text : JsString) :
  matchFirstWord text = scanFirstWord text.
Proof.
  unfold matchFirstWord, scanFirstWord, FIRST_WORD_PATTERN.
  set (isWord := fun c => negb (isWhiteSpace c)).
  set (lead := takeWhile isWhiteSpace text).
  set (rest := dropWhile isWhiteSpace text).
  set (word := takeWhile isWord rest).
  set (rest' := dropWhile isWord rest).
  set (gap := takeWhile isWhiteSpace rest').
  set (c2 := matchAtoms [oneOrMore WhiteSpaceClass]).
  set (c1 := matchAtoms
               [oneOrMore NonWhiteSpaceClass; oneOrMore WhiteSpaceClass]).
  assert (Hc1 : forall t,
    c1 t = backtrack (length (takeWhile isWord t)) 1 c2 t) by reflexivity.
  assert (Hc2 : forall t,
    c2 t = backtrack (length (takeWhile isWhiteSpace t)) 1
             (fun _ => Some 0%nat) t) by reflexivity.
  assert (Hlead : forall j, (j < length lead)%nat -> c1 (drop j text) = None).
  { intros j Hj. rewrite Hc1.
    rewrite (takeWhile_inside_run isWhiteSpace isWord text j);
      [reflexivity| |exact Hj].
    intros x Hx. unfold isWord. now rewrite Hx. }
  assert (Hword : forall j, (j < length word)%nat -> c2 (drop j rest) = None).
  { intros j Hj. rewrite Hc2.
    rewrite (takeWhile_inside_run isWord isWhiteSpace rest j);
      [reflexivity| |exact Hj].
    intros x Hx. unfold isWord in Hx. now apply negb_true_iff. }
  assert (Hrest : drop (length lead) text = rest)
    by apply drop_takeWhile_length.
  assert (Hrest' : drop (length word) rest = rest')
    by apply (drop_takeWhile_length isWord).
  change (matchAtoms
            [zeroOrMore WhiteSpaceClass; oneOrMore NonWhiteSpaceClass;
             oneOrMore WhiteSpaceClass] text)
    with (backtrack (length lead) 0 c1 text).
  assert (Hfail : c1 rest = None ->
    backtrack (length lead) 0 c1 text = None).
  { intros Hnone. apply backtrack_None. intros j Hj.
    destruct (decide (j = length lead)) as [->|Hne];
      [now rewrite Hrest|apply Hlead; lia]. }
  destruct word as [|w word'] eqn:Eword.
  { rewrite Hfail; [reflexivity|].
    rewrite Hc1. fold word. now rewrite Eword. }
  destruct gap as [|g gap'] eqn:Egap.
  { rewrite Hfail; [reflexivity|]. rewrite Hc1. fold word. rewrite Eword.
    apply backtrack_None. intros j Hj.
    destruct (decide (j = length (w :: word'))) as [->|Hne].
    - rewrite Hrest', Hc2. fold gap. now rewrite Egap.
    - apply Hword. lia. }
  assert (Hgap : c2 rest' = Some (length gap + 0)%nat).
  { rewrite Hc2. fold gap.
    apply backtrack_Some; [rewrite Egap; simpl; lia|]. reflexivity. }
  assert (Hmid : c1 rest = Some (length word + (length gap + 0))%nat).
  { rewrite Hc1. fold word.
    apply backtrack_Some; [rewrite Eword; simpl; lia|].
    now rewrite Eword, Hrest'. }
  rewrite (backtrack_Some (length lead) 0 _ c1 text (Nat.le_0_l _))
    by (rewrite Hrest, Hmid, Eword, Egap; reflexivity).
  f_equal.
  assert (Htext : text = (lead ++ (w :: word') ++ (g :: gap'))
                           ++ dropWhile isWhiteSpace rest').
  { rewrite <- Eword, <- Egap.
    rewrite <- (takeWhile_dropWhile isWhiteSpace text) at 1.
    fold lead rest.
    rewrite <- (takeWhile_dropWhile isWord rest) at 1.
    fold word rest'.
    rewrite <- (takeWhile_dropWhile isWhiteSpace rest') at 1.
    fold gap. rewrite Eword, Egap.
    repeat (rewrite <- app_assoc; simpl). reflexivity. }
  rewrite Htext at 1. apply take_app_length'.
  rewrite !length_app. lia.
Qed.

Lemma matchFirstWord_sound (text m : JsString) :
  matchFirstWord text = Some m -> m `prefix_of` text /\ inPattern m.
Proof. rewrite matchFirstWord_scan. apply scanFirstWord_sound. Qed.

Lemma matchFirstWord_complete (text m : JsString) :
  m `prefix_of` text -> inPattern m ->
  exists more, matchFirstWord text = Some (m ++ more).
Proof. rewrite matchFirstWord_scan. apply scanFirstWord_complete. Qed.

(** [matchFirstWord] computes the match of the pattern. *)
Lemma matchFirstWord_Some (text m : JsString) :
  matchFirstWord text = Some m <-> FirstWordMatch text m.
Proof.
  split.
  - intros Hm. destruct (matchFirstWord_sound _ _ Hm) as [Hpre Hpat].
    repeat split; try assumption.
    intros m' Hpre' Hpat'.
    destruct (matchFirstWord_complete _ _ Hpre' Hpat') as [more Hmore].
    rewrite Hm in Hmore. injection Hmore as ->. now exists more.
  - intros (Hpre & Hpat & Hmax).
    destruct (matchFirstWord_complete _ _ Hpre Hpat) as [more Hmore].
    rewrite Hmore. f_equal.
    destruct (matchFirstWord_sound _ _ Hmore) as [Hpre' Hpat'].
    specialize (Hmax _ Hpre' Hpat').
    apply prefix_length_eq; [exact Hmax|].
    rewrite length_app. lia.
Qed.

Lemma matchFirstWord_None (text : JsString) :
  matchFirstWord text = None <->
  forall m, m `prefix_of` text -> ~ inPattern m.
Proof.
  split.
  - intros Hnone m Hpre Hpat.
    destruct (matchFirstWord_complete _ _ Hpre Hpat) as [more Hmore].
    congruence.
  - intros Hno. destruct (matchFirstWord text) as [m|] eqn:Hm; [|reflexivity].
    destruct (matchFirstWord_sound _ _ Hm) as [Hpre Hpat].
    destruct (Hno _ Hpre Hpat).
Qed.

(** ** The claims about the post-layout hook *)

Section PostLayout.
Context {num : Type} `{JsNumber num}.

Implicit Types (nodeContext : NodeContext num)
  (checkPoints : list (NodeContext num)) (column : Column num).

(** C1.  A block that passes the eligibility gate, whose first word measures
    a width [W > 0] and whose text shows at least two different rounded tops,
    comes out with exactly two markers in front of its former children, the
    spacer first and the pusher second; the pusher's [width] is [W] pixels;
    and the plugin properties hold [applied = 1], [width = W] and
    [lineCount] = the number of different rounded tops. *)
Theorem markers_and_diagnostics_on_eligible_block
    nodeContext checkPoints column blockElement (W : num) :
  passesGate nodeContext checkPoints ->
  viewNode nodeContext = Some blockElement ->
  firstWordWidthOf column blockElement = W ->
  num_lt num_zero W ->
  (2 <= countDistinct (observedTops column blockElement))%nat ->
  exists blockElement' pluginProps',
    viewNode (postLayoutBlockHangingIndent nodeContext checkPoints column)
      = Some blockElement' /\
    elChildNodes blockElement'
      = nodeOfElement floatSpacer :: nodeOfElement (floatIndent W)
          :: elChildNodes blockElement /\
    elClassName floatSpacer = "vivliostyle-hanging-indent-spacer" /\
    elClassName (floatIndent W) = "vivliostyle-hanging-indent-pusher" /\
    elStyle (floatIndent W) !! "width"
      = Some (num_toString W ++ "px")%string /\
    pluginProps (postLayoutBlockHangingIndent nodeContext checkPoints column)
      = Some pluginProps' /\
    pluginProps' !! "torahWindow:applied" = Some (VInt 1) /\
    pluginProps' !! "torahWindow:width" = Some (VNumber W) /\
    pluginProps' !! "torahWindow:lineCount"
      = Some (VInt (Z.of_nat
                      (countDistinct (observedTops column blockElement)))).
Proof.
  intros Hgate Hview HW Hpos Hlines.
  rewrite <- lineCount_distinct in *.
  assert (Hnz : num_is_zero (firstWordWidthOf column blockElement) = false)
    by (rewrite HW; apply num_pos_not_zero, Hpos).
  rewrite (postLayout_applies _ _ _ _ Hgate Hview Hnz Hlines), HW.
  unfold transformed. simpl.
  eexists _, _. repeat split; by simplify_map_eq.
Qed.

(** C4.  When the inherited properties are absent, or lack the
    [hanging-indent] key, or hold under it anything but the string
    ["first-word"], the hook gives the node context back untouched: no
    marker, no diagnostic. *)
Theorem no_op_without_first_word_value nodeContext checkPoints column :
  (inheritedProps nodeContext = None \/
   exists props, inheritedProps nodeContext = Some props /\
     (props !! HANGING_INDENT_PROP = None \/
      exists v, props !! HANGING_INDENT_PROP = Some v /\
                v <> VString "first-word")) ->
  postLayoutBlockHangingIndent nodeContext checkPoints column = nodeContext.
Proof.
  intros Hprops.
  destruct (postLayout_cases nodeContext checkPoints column)
    as [Hsame|(b & (_ & _ & _ & props & Hp & Hv) & _)]; [exact Hsame|].
  destruct Hprops as [Hnone|(props' & Hp' & [Hnone|(v & Hv' & Hne)])];
    congruence.
Qed.

(** C5.  A fragment index above 1 makes the hook a no-op, whatever the block
    holds and whatever its style value is. *)
Theorem no_op_on_later_fragment nodeContext checkPoints column :
  1 < fragmentIndex nodeContext ->
  postLayoutBlockHangingIndent nodeContext checkPoints column = nodeContext.
Proof.
  intros Hfrag.
  destruct (postLayout_cases nodeContext checkPoints column)
    as [Hsame|(b & (_ & _ & Hle & _) & _)]; [exact Hsame|lia].
Qed.

(** C6.  When the rounded tops of the rectangles of all non-empty text nodes
    take fewer than two different values, the hook is a no-op. *)
Theorem no_op_on_single_line_block nodeContext checkPoints column :
  (forall blockElement, viewNode nodeContext = Some blockElement ->
     (countDistinct (observedTops column blockElement) < 2)%nat) ->
  postLayoutBlockHangingIndent nodeContext checkPoints column = nodeContext.
Proof.
  intros Hone.
  destruct (postLayout_cases nodeContext checkPoints column)
    as [Hsame|(b & _ & Hview & _ & Hlines & _)]; [exact Hsame|].
  specialize (Hone _ Hview). rewrite <- lineCount_distinct in Hone. lia.
Qed.

(** X17.  On a node context that is an object, a run of the hook is all or
    nothing.  Either it gives the node context back as it received it (view
    tree, inherited properties and plugin properties included), or it is the
    complete run: both markers in front of the former children and all three
    diagnostics stored. *)
Theorem run_is_all_or_nothing nodeContext checkPoints column :
  postLayoutBlockHangingIndent nodeContext checkPoints column = nodeContext \/
  exists blockElement blockElement' pluginProps' (W : num) (lineCount : nat),
    viewNode nodeContext = Some blockElement /\
    postLayoutBlockHangingIndent nodeContext checkPoints column
      = mkNodeContext (Some blockElement') (inline nodeContext)
          (fragmentIndex nodeContext) (inheritedProps nodeContext)
          (Some pluginProps') /\
    blockElement'
      = mkElement (elLocalName blockElement) (elClassName blockElement)
          (elStyle blockElement)
          (nodeOfElement floatSpacer :: nodeOfElement (floatIndent W)
             :: elChildNodes blockElement) /\
    pluginProps'
      = <["torahWindow:lineCount" := VInt (Z.of_nat lineCount)]>
          (<["torahWindow:width" := VNumber W]>
             (<["torahWindow:applied" := VInt 1]>
                (default ∅ (pluginProps nodeContext)))).
Proof.
  destruct (postLayout_cases nodeContext checkPoints column)
    as [Hsame|(b & _ & Hview & _ & _ & Happ)]; [left; exact Hsame|].
  right. rewrite Happ. unfold transformed.
  eexists b, _, _, _, _. repeat split. exact Hview.
Qed.

(** C7, at the input on which the code departs from it.  Called with [null]
    for the node context the hook throws a [TypeError] from its first log
    statement, whatever the checkpoints and the column are: the test
    [!nodeContext], which would return silently, comes after the read.  The
    other half of the same test works: with no checkpoint and an object the
    call returns and the node context is unchanged. *)
Theorem null_node_context_throws_before_the_guard
    checkPoints column :
  invokePostLayoutBlock None checkPoints column = Threw TypeError /\
  forall nodeContext,
    invokePostLayoutBlock (Some nodeContext) [] column
    = Returned nodeContext.
Proof. split; [reflexivity|]. intros nodeContext. reflexivity. Qed.

End PostLayout.

Section PostLayoutMeasure.
Context {num : Type} `{JsNumber num}.

Implicit Types (nodeContext : NodeContext num)
  (checkPoints : list (NodeContext num)) (column : Column num).

(** A zero width stops the hook, whatever the line set is. *)
Lemma no_op_on_zero_width nodeContext checkPoints column blockElement :
  viewNode nodeContext = Some blockElement ->
  num_is_zero (firstWordWidthOf column blockElement) = true ->
  postLayoutBlockHangingIndent nodeContext checkPoints column = nodeContext.
Proof.
  intros Hview Hzero.
  destruct (postLayout_cases nodeContext checkPoints column)
    as [Hsame|(b & _ & Hview' & Hnz & _)]; [exact Hsame|].
  rewrite Hview in Hview'. injection Hview' as <-. congruence.
Qed.

(** C3.  The node that is measured is the first of the non-empty text nodes
    of the block.  When the pattern (leading white space, a word, white space)
    matches at the start of its text, the range runs over exactly the matched
    characters and the width is the sum, from 0, of the widths of all the
    rectangles of that range; when it does not match the width is 0.  When the
    match fails or the width is 0 the hook gives the node context back
    unchanged, with no condition on the line count. *)
Theorem first_word_width_and_abort
    nodeContext checkPoints column blockElement :
  viewNode nodeContext = Some blockElement ->
  firstTextNodeOf blockElement
    = head (collectTextNodes [] (nodeOfElement blockElement) []) /\
  match firstTextNodeOf blockElement with
  | Some t =>
      ((exists m, FirstWordMatch (textData t) m) \/
       (forall m, m `prefix_of` textData t -> ~ inPattern m)) /\
      (forall m, FirstWordMatch (textData t) m ->
         take (length m) (textData t) = m /\
         firstWordWidthOf column blockElement
           = fold_left (fun w rect => num_add w (width rect))
               (getRangeClientRects (clientLayout column) blockElement
                  (RangeOffsets (textPath t) 0 (length m)))
               num_zero) /\
      ((forall m, m `prefix_of` textData t -> ~ inPattern m) ->
         firstWordWidthOf column blockElement = num_zero /\
         postLayoutBlockHangingIndent nodeContext checkPoints column
           = nodeContext)
  | None =>
      firstWordWidthOf column blockElement = num_zero /\
      postLayoutBlockHangingIndent nodeContext checkPoints column
        = nodeContext
  end /\
  (num_is_zero (firstWordWidthOf column blockElement) = true ->
   postLayoutBlockHangingIndent nodeContext checkPoints column = nodeContext).
Proof.
  intros Hview.
  assert (Hzero : firstWordWidthOf column blockElement = num_zero ->
    postLayoutBlockHangingIndent nodeContext checkPoints column = nodeContext).
  { intros Hw. apply (no_op_on_zero_width _ _ _ _ Hview).
    rewrite Hw. apply num_zero_is_zero. }
  split; [apply findFirstTextNode_head|].
  split; [|apply no_op_on_zero_width, Hview].
  unfold firstWordWidthOf in *. unfold measureFirstWord in *.
  destruct (firstTextNodeOf blockElement) as [t|]; [|auto].
  destruct (matchFirstWord (textData t)) as [m0|] eqn:Hm.
  - split; [left; exists m0; now apply matchFirstWord_Some|].
    split.
    + intros m Hmatch. apply matchFirstWord_Some in Hmatch.
      assert (m = m0) as -> by congruence.
      split; [|reflexivity].
      destruct (matchFirstWord_sound _ _ Hm) as [[tail ->] _].
      now rewrite take_app_length.
    + intros Hno. apply matchFirstWord_None in Hno. congruence.
  - split; [right; now apply matchFirstWord_None|].
    split; [|auto].
    intros m Hmatch. apply matchFirstWord_Some in Hmatch. congruence.
Qed.


(** C2, what the code assigns.  The spacer is the first node the hook
    inserts; it floats to the line start, is 0 wide, inherits its line height
    and sets no [clear], and its height is the literal ["1.5rlh"]: the unit
    [rlh] counts line heights of the root element, where the comment above
    these statements in the source announces a height in [lh], line heights
    of the element itself. *)
Theorem spacer_marker_style nodeContext checkPoints column :
  postLayoutBlockHangingIndent nodeContext checkPoints column
    <> nodeContext ->
  exists blockElement' others,
    viewNode (postLayoutBlockHangingIndent nodeContext checkPoints column)
      = Some blockElement' /\
    elChildNodes blockElement' = nodeOfElement floatSpacer :: others /\
    elStyle floatSpacer !! "float" = Some "inline-start" /\
    elStyle floatSpacer !! "width" = Some "0" /\
    elStyle floatSpacer !! "height" = Some "1.5rlh" /\
    elStyle floatSpacer !! "line-height" = Some "inherit" /\
    elStyle floatSpacer !! "clear" = None.
Proof.
  intros Hchanged.
  destruct (postLayout_cases nodeContext checkPoints column)
    as [Hsame|(b & _ & Hview & _ & _ & Happ)]; [contradiction|].
  rewrite Happ. unfold transformed. simpl.
  eexists _, _. repeat split.
Qed.

(** A second run on the result of a complete run.  Nothing in the node
    context tells the hook that it has been there: when the layout of the
    transformed block still gives a non-zero width and two lines, the hook
    inserts a second pair of markers in front of the first. *)
Lemma second_run_applies_again nodeContext checkPoints column blockElement :
  let W := firstWordWidthOf column blockElement in
  let blockElement' := insertMarkers blockElement W in
  let W' := firstWordWidthOf column blockElement' in
  passesGate nodeContext checkPoints ->
  viewNode nodeContext = Some blockElement ->
  num_is_zero W = false ->
  (2 <= size (measureLines column blockElement))%nat ->
  num_is_zero W' = false ->
  (2 <= size (measureLines column blockElement'))%nat ->
  elChildNodes <$>
    viewNode (postLayoutBlockHangingIndent
                (postLayoutBlockHangingIndent nodeContext checkPoints column)
                checkPoints column)
  = Some (nodeOfElement floatSpacer :: nodeOfElement (floatIndent W')
            :: nodeOfElement floatSpacer :: nodeOfElement (floatIndent W)
            :: elChildNodes blockElement).
Proof.
  intros W block' W' Hgate Hview Hw Hlines Hw' Hlines'.
  rewrite (postLayout_applies _ _ _ _ Hgate Hview Hw Hlines).
  fold W.
  assert (Hblock' : block' =
    mkElement (elLocalName blockElement) (elClassName blockElement)
      (elStyle blockElement)
      (nodeOfElement floatSpacer :: nodeOfElement (floatIndent W)
         :: elChildNodes blockElement)) by apply insertMarkers_eq.
  set (once := transformed nodeContext blockElement W
                 (size (measureLines column blockElement))).
  assert (Hview1 : viewNode once = Some block')
    by (rewrite Hblock'; reflexivity).
  assert (Hgate1 : passesGate once checkPoints).
  { destruct Hgate as (Hcp & Hinl & Hfrag & Hprops).
    repeat split; assumption. }
  rewrite (postLayout_applies _ _ _ _ Hgate1 Hview1 Hw' Hlines').
  fold W'. unfold transformed. simpl. now rewrite Hblock'.
Qed.

End PostLayoutMeasure.

(** ** The style capture hook *)

Section StyleCapture.
Context {num : Type} `{JsNumber num}.

(** C8.  The hook is a total function of the node context and the style map,
    and the node context is all it updates.  When the style map holds a
    truthy value under [hanging-indent], the inherited properties (created
    if absent) get the normalized string of that value under the same key;
    otherwise the node context is returned unchanged.  Every other field, and
    every other inherited key, keeps its value. *)
Theorem style_capture_writes_normalized_value
    (nodeContext : NodeContext num) (style : gmap string StyleValue) :
  let result := preprocessElementStyleHook nodeContext style in
  viewNode result = viewNode nodeContext /\
  inline result = inline nodeContext /\
  fragmentIndex result = fragmentIndex nodeContext /\
  pluginProps result = pluginProps nodeContext /\
  (forall key : string, key <> HANGING_INDENT_PROP ->
     inheritedProps result ≫= (fun props => props !! key)
       = inheritedProps nodeContext ≫= (fun props => props !! key)) /\
  (forall v, style !! HANGING_INDENT_PROP = Some v -> styleTruthy v = true ->
     inheritedProps result
       = Some (<[HANGING_INDENT_PROP := VString (normalizedString v)]>
                 (default ∅ (inheritedProps nodeContext)))) /\
  ((forall v, style !! HANGING_INDENT_PROP = Some v ->
      styleTruthy v = false) ->
   result = nodeContext).
Proof.
  cbv zeta. unfold preprocessElementStyleHook.
  destruct (style !! HANGING_INDENT_PROP) as [v|] eqn:Hv.
  - destruct (styleTruthy v) eqn:Ht.
    + simpl. repeat split.
      * intros key Hkey. rewrite lookup_insert_ne by congruence.
        destruct (inheritedProps nodeContext); simpl; [reflexivity|].
        apply lookup_empty.
      * intros v' [= <-] _.
        destruct (inheritedProps nodeContext), v; reflexivity.
      * intros Hall. specialize (Hall v eq_refl). congruence.
    + repeat split. intros v' [= <-]. congruence.
  - repeat split. intros v' [=].
Qed.

End StyleCapture.

(** ** Running the hooks on the example block *)

Import Paragraph.

(** C1 on the paragraph that wraps once: ["Hello "] is 30px wide. *)
Lemma hello_gets_markers_and_diagnostics :
  passesGate helloContext [helloContext] /\
  exists blockElement' pluginProps',
    viewNode (postLayoutBlockHangingIndent helloContext [helloContext]
                twoLines) = Some blockElement' /\
    elChildNodes blockElement'
      = nodeOfElement floatSpacer :: nodeOfElement (floatIndent 30)
          :: elChildNodes helloBlock /\
    elClassName floatSpacer = "vivliostyle-hanging-indent-spacer" /\
    elClassName (floatIndent 30) = "vivliostyle-hanging-indent-pusher" /\
    elStyle (floatIndent 30) !! "width" = Some "30px" /\
    pluginProps (postLayoutBlockHangingIndent helloContext [helloContext]
                   twoLines) = Some pluginProps' /\
    pluginProps' !! "torahWindow:applied" = Some (VInt 1) /\
    pluginProps' !! "torahWindow:width" = Some (VNumber 30) /\
    pluginProps' !! "torahWindow:lineCount" = Some (VInt 2).
Proof.
  assert (Hgate : passesGate helloContext [helloContext]).
  { split; [discriminate|]. split; [reflexivity|]. split; [simpl; lia|].
    eexists. split; reflexivity. }
  split; [exact Hgate|].
  assert (Hwidth : firstWordWidthOf twoLines helloBlock = 30)
    by (vm_compute; reflexivity).
  assert (Hpos : num_lt num_zero 30) by (simpl; lia).
  assert (Hlines : (2 <= countDistinct (observedTops twoLines helloBlock))%nat)
    by (vm_compute; lia).
  pose proof (markers_and_diagnostics_on_eligible_block
                helloContext [helloContext] twoLines helloBlock 30
                Hgate eq_refl Hwidth Hpos Hlines) as Hrun.
  vm_compute in Hrun. vm_compute. exact Hrun.
Defined.

(** C2 on the paragraph that wraps once. *)
Lemma hello_spacer_style :
  exists blockElement' others,
    viewNode (postLayoutBlockHangingIndent helloContext [helloContext]
                twoLines) = Some blockElement' /\
    elChildNodes blockElement' = nodeOfElement floatSpacer :: others /\
    elStyle floatSpacer !! "float" = Some "inline-start" /\
    elStyle floatSpacer !! "width" = Some "0" /\
    elStyle floatSpacer !! "height" = Some "1.5rlh" /\
    elStyle floatSpacer !! "line-height" = Some "inherit" /\
    elStyle floatSpacer !! "clear" = None.
Proof.
  apply (spacer_marker_style helloContext [helloContext] twoLines).
  intros Heq.
  apply (f_equal (fun c => length <$> (elChildNodes <$> viewNode c))) in Heq.
  vm_compute in Heq. discriminate.
Defined.

(** C3 on a paragraph that is a single word: the pattern finds no white space
    after the word, and the hook leaves the paragraph alone although the
    layout shows two lines. *)
Lemma single_word_is_left_alone :
  viewNode wordContext = Some wordBlock /\
  (2 <= countDistinct (observedTops twoLines wordBlock))%nat /\
  firstWordWidthOf twoLines wordBlock = 0 /\
  postLayoutBlockHangingIndent wordContext [wordContext] twoLines
    = wordContext.
Proof.
  split; [reflexivity|]. split; [vm_compute; lia|].
  destruct (first_word_width_and_abort wordContext [wordContext] twoLines
              wordBlock eq_refl) as (_ & Hwidth & Habort).
  split; [vm_compute; reflexivity|].
  apply Habort. vm_compute. reflexivity.
Defined.

(** C4 on the paragraph styled [hanging-indent: none]. *)
Lemma none_value_is_left_alone :
  postLayoutBlockHangingIndent noneContext [noneContext] twoLines
    = noneContext.
Proof.
  apply (no_op_without_first_word_value noneContext [noneContext] twoLines).
  right. eexists. split; [reflexivity|]. right.
  eexists. split; [reflexivity|]. discriminate.
Defined.

(** C5 on the second fragment of the paragraph. *)
Lemma later_fragment_is_left_alone :
  postLayoutBlockHangingIndent laterFragment [laterFragment] twoLines
    = laterFragment.
Proof.
  apply (no_op_on_later_fragment laterFragment [laterFragment] twoLines).
  simpl. lia.
Defined.

(** C6 on the paragraph laid out on one line. *)
Lemma one_line_is_left_alone :
  postLayoutBlockHangingIndent helloContext [helloContext] oneLine
    = helloContext.
Proof.
  apply (no_op_on_single_line_block helloContext [helloContext] oneLine).
  intros blockElement [= <-]. vm_compute. lia.
Defined.

(** C9.  The hook is not idempotent.  Run on the paragraph that wraps once
    it inserts a spacer and a pusher; run again on the result it measures
    the same text node, now the third child, and inserts a second spacer and
    a second pusher: four markers stand in front of the text. *)
Theorem second_run_inserts_second_pair :
  exists (nodeContext : NodeContext Z) checkPoints column blockElement,
    viewNode nodeContext = Some blockElement /\
    let once :=
      postLayoutBlockHangingIndent nodeContext checkPoints column in
    let twice := postLayoutBlockHangingIndent once checkPoints column in
    twice <> once /\
    elChildNodes <$> viewNode once
      = Some ([nodeOfElement floatSpacer; nodeOfElement (floatIndent 30)]
                ++ elChildNodes blockElement) /\
    elChildNodes <$> viewNode twice
      = Some ([nodeOfElement floatSpacer; nodeOfElement (floatIndent 30);
               nodeOfElement floatSpacer; nodeOfElement (floatIndent 30)]
                ++ elChildNodes blockElement).
Proof.
  exists helloContext, [helloContext], twoLines, helloBlock.
  split; [reflexivity|]. cbv zeta. split; [|split].
  - intros Heq.
    apply (f_equal (fun c => length <$> (elChildNodes <$> viewNode c)))
      in Heq.
    vm_compute in Heq. discriminate.
  - vm_compute. reflexivity.
  - vm_compute. reflexivity.
Qed.


(** C8 on a node context with no inherited properties yet. *)
Lemma first_word_style_is_captured :
  inheritedProps
    (preprocessElementStyleHook (blockContext helloBlock None) firstWordStyle)
  = Some {[ HANGING_INDENT_PROP := VString "first-word" ]}.
Proof.
  destruct (style_capture_writes_normalized_value
              (blockContext helloBlock None) firstWordStyle)
    as (_ & _ & _ & _ & _ & Hwrite & _).
  apply (Hwrite (SIdent "first-word")); reflexivity.
Defined.

(** * Further properties of the code *)

(** ** Blank text *)

Lemma dropWhile_nil_iff {A} (p : A -> bool) (l : list A) :
  dropWhile p l = [] <-> forallb p l = true.
Proof.
  induction l as [|x l IH]; simpl; [tauto|].
  destruct (p x); simpl; [exact IH|]. split; discriminate.
Qed.

Lemma forallb_rev {A} (p : A -> bool) (l : list A) :
  forallb p (rev l) = forallb p l.
Proof.
  induction l as [|x l IH]; simpl; [reflexivity|].
  rewrite forallb_app, IH. simpl. rewrite andb_true_r. apply andb_comm.
Qed.

Lemma forallb_dropWhile {A} (p : A -> bool) (l : list A) :
  forallb p (dropWhile p l) = forallb p l.
Proof.
  induction l as [|x l IH]; simpl; [reflexivity|].
  destruct (p x) eqn:Hx; simpl; [exact IH|]. now rewrite Hx.
Qed.

Lemma trim_nil_iff (text : JsString) :
  trim text = [] <-> forallb isWhiteSpace text = true.
Proof.
  unfold trim.
  rewrite <- (forallb_dropWhile isWhiteSpace text).
  rewrite <- (forallb_rev isWhiteSpace (dropWhile isWhiteSpace text)).
  rewrite <- dropWhile_nil_iff.
  split.
  - intros Hnil. apply (f_equal (@rev N)) in Hnil.
    now rewrite rev_involutive in Hnil.
  - intros ->. reflexivity.
Qed.

(** X3.  A text node passes the test [text.trim().length > 0] of the two
    walks exactly when its text holds a code unit that is not white space. *)
Theorem nonBlank_iff_some_visible_character (text : JsString) :
  nonBlank text = true <-> exists c, c ∈ text /\ isWhiteSpace c = false.
Proof.
  unfold nonBlank. rewrite Nat.ltb_lt.
  split.
  - intros Hlen.
    destruct (forallb isWhiteSpace text) eqn:Hall.
    + apply trim_nil_iff in Hall. rewrite Hall in Hlen. simpl in Hlen. lia.
    + apply not_true_iff_false in Hall.
      rewrite forallb_forall in Hall.
      destruct (existsb (fun c => negb (isWhiteSpace c)) text) eqn:Hex.
      * apply existsb_exists in Hex as (c & Hin & Hc).
        exists c. split; [now apply list_elem_of_In|].
        now apply negb_true_iff.
      * exfalso. apply Hall. intros c Hin.
        destruct (isWhiteSpace c) eqn:Hc; [reflexivity|].
        assert (existsb (fun c => negb (isWhiteSpace c)) text = true);
          [|congruence].
        apply existsb_exists. exists c. now rewrite Hc.
  - intros (c & Hin & Hc).
    destruct (trim text) eqn:Htrim; [|simpl; lia].
    apply trim_nil_iff in Htrim. rewrite forallb_forall in Htrim.
    apply list_elem_of_In in Hin. rewrite (Htrim _ Hin) in Hc. discriminate.
Qed.

(** ** What the walks visit *)

Lemma forEachChild_collect (here : Path) (children : list Node) :
  forall k acc,
    forEachChild (fun i c acc => collectTextNodes (here ++ [i]) c acc)
                 k children acc
    = acc ++ concat (imap (fun i c =>
                             collectTextNodes (here ++ [(k + i)%nat]) c [])
                          children).
Proof.
  induction children as [|c cs IH]; intros k acc; simpl.
  - now rewrite app_nil_r.
  - rewrite IH, (collectTextNodes_acc c _ acc), <- app_assoc.
    rewrite Nat.add_0_r. do 2 f_equal. f_equal.
    apply imap_ext. intros i x _. simpl. now rewrite Nat.add_succ_r.
Qed.

Lemma collect_element (here : Path) name cls sty (children : list Node) :
  collectTextNodes here (ElementNode name cls sty children) []
  = concat (imap (fun i c => collectTextNodes (here ++ [i]) c []) children).
Proof. simpl. now rewrite forEachChild_collect. Qed.

Lemma under_under (h1 h2 : Path) (t : TextRef) :
  under h1 (under h2 t) = under (h1 ++ h2) t.
Proof. unfold under. simpl. now rewrite app_assoc. Qed.

(** The walk from [here] finds what the walk from the root finds, with the
    positions prefixed by [here]. *)
Lemma collectTextNodes_under (node : Node) :
  forall here,
    collectTextNodes here node []
    = map (under here) (collectTextNodes [] node []).
Proof.
  induction node as [text|data|name cls sty children IH]
    using Node_nested_ind; intros here.
  - simpl. destruct (0 <? length (trim text))%nat; [|reflexivity].
    simpl. unfold under. simpl. now rewrite app_nil_r.
  - reflexivity.
  - rewrite !collect_element.
    assert (Hgen : forall g : nat -> nat,
      concat (imap (fun i c => collectTextNodes (here ++ [g i]) c [])
                   children)
      = map (under here)
          (concat (imap (fun i c => collectTextNodes [g i] c []) children))).
    { induction IH as [|c cs Hc _ IHcs]; intros g; [reflexivity|].
      simpl. rewrite map_app. f_equal.
      - rewrite (Hc (here ++ [g 0%nat])), (Hc [g 0%nat]), map_map.
        apply map_ext. intros t. now rewrite under_under.
      - exact (IHcs (fun i => g (S i))). }
    exact (Hgen (fun i => i)).
Qed.

Lemma elem_of_collect_children (t : TextRef) (children : list Node) :
  t ∈ concat (imap (fun i c => collectTextNodes [i] c []) children) <->
  exists i c t',
    children !! i = Some c /\ t' ∈ collectTextNodes [] c [] /\
    t = under [i] t'.
Proof.
  rewrite list_elem_of_In, in_concat. split.
  - intros (l & Hl & Ht).
    apply list_elem_of_In, elem_of_lookup_imap in Hl as (i & c & -> & Hc).
    rewrite collectTextNodes_under in Ht.
    apply in_map_iff in Ht as (t' & <- & Ht').
    exists i, c, t'. now rewrite list_elem_of_In.
  - intros (i & c & t' & Hc & Ht' & ->).
    exists (collectTextNodes [i] c []). split.
    + apply list_elem_of_In, elem_of_lookup_imap. eauto.
    + rewrite collectTextNodes_under. apply in_map.
      now apply list_elem_of_In.
Qed.

(** The collected references are the non-blank text nodes of the tree. *)
Lemma elem_of_collectTextNodes (node : Node) :
  forall t,
    t ∈ collectTextNodes [] node [] <->
    nodeAt node (textPath t) = Some (TextNode (textData t)) /\
    nonBlank (textData t) = true.
Proof.
  induction node as [text|data|name cls sty children IH]
    using Node_nested_ind; intros [p d]; simpl textPath; simpl textData.
  - simpl. fold (nonBlank text). split.
    + destruct (nonBlank text) eqn:Hb; [|now rewrite elem_of_nil].
      rewrite list_elem_of_singleton. intros [= -> ->]. now split.
    + intros [Hat Hb]. destruct p; simpl in Hat; [|discriminate].
      injection Hat as ->. rewrite Hb. now apply list_elem_of_singleton.
  - simpl. rewrite elem_of_nil. split; [tauto|].
    intros [Hat _]. destruct p; simpl in Hat; discriminate.
  - rewrite collect_element. simpl app.
    rewrite elem_of_collect_children. split.
    + intros (i & c & [p' d'] & Hc & Ht' & [= -> ->]).
      rewrite Forall_forall in IH.
      apply (IH c) in Ht';
        [|eapply list_elem_of_lookup_2, Hc].
      simpl in Ht'. simpl. now rewrite Hc.
    + intros [Hat Hb]. destruct p as [|i p']; simpl in Hat; [discriminate|].
      destruct (children !! i) as [c|] eqn:Hc; [|discriminate].
      exists i, c, (mkTextRef p' d).
      split; [exact Hc|]. split; [|reflexivity].
      rewrite Forall_forall in IH.
      apply (IH c); [eapply list_elem_of_lookup_2, Hc|].
      now split.
Qed.

Lemma under_inj (here : Path) (t1 t2 : TextRef) :
  under here t1 = under here t2 -> t1 = t2.
Proof.
  destruct t1 as [p1 d1], t2 as [p2 d2]. unfold under. simpl.
  intros [= Hp ->]. apply app_inv_head in Hp. now subst.
Qed.

Lemma collect_children_head (g : nat -> nat) (children : list Node) :
  forall t,
    t ∈ concat (imap (fun i c => collectTextNodes [g i] c []) children) ->
    exists i rest, textPath t = g i :: rest.
Proof.
  revert g. induction children as [|c cs IH]; intros g t; simpl.
  - now rewrite elem_of_nil.
  - rewrite elem_of_app. intros [Ht|Ht].
    + rewrite collectTextNodes_under in Ht.
      apply list_elem_of_In, in_map_iff in Ht as (t' & <- & _).
      exists 0%nat, (textPath t'). reflexivity.
    + apply (IH (fun i => g (S i))) in Ht as (i & rest & Ht).
      exists (S i), rest. exact Ht.
Qed.

(** No text node is collected twice. *)
Lemma NoDup_collectTextNodes (node : Node) :
  NoDup (collectTextNodes [] node []).
Proof.
  induction node as [text|data|name cls sty children IH]
    using Node_nested_ind.
  - simpl. destruct (0 <? length (trim text))%nat.
    + apply NoDup_singleton.
    + apply NoDup_nil_2.
  - apply NoDup_nil_2.
  - rewrite collect_element.
    assert (Hgen : forall g : nat -> nat,
      (forall i j, g i = g j -> i = j) ->
      NoDup (concat (imap (fun i c => collectTextNodes [g i] c [])
                          children))).
    { induction IH as [|c cs Hc _ IHcs]; intros g Hg; simpl.
      - apply NoDup_nil_2.
      - apply NoDup_app. split; [|split].
        + rewrite collectTextNodes_under.
          change (NoDup (under [g 0%nat] <$> collectTextNodes [] c [])).
          apply NoDup_fmap_2_strong; [|exact Hc].
          intros t1 t2 _ _. apply under_inj.
        + intros t Ht Ht'.
          rewrite collectTextNodes_under in Ht.
          apply list_elem_of_In, in_map_iff in Ht as (t' & <- & _).
          apply (collect_children_head (fun i => g (S i))) in Ht'
            as (i & rest & Hp).
          simpl in Hp. injection Hp as Hp _.
          apply Hg in Hp. discriminate.
        + apply (IHcs (fun i => g (S i))).
          intros i j Hij. apply Hg in Hij. now injection Hij. }
    exact (Hgen (fun i => i) (fun i j Hij => Hij)).
Qed.

(** X4.  [collectTextNodes] lists the text nodes of the subtree whose text
    is not blank: a reference is collected exactly when its position holds a
    text node with its text and that text passes the test; and no reference
    is collected twice, so every such text node is measured once. *)
Theorem collected_are_the_visible_text_nodes (node : Node) :
  (forall t,
     t ∈ collectTextNodes [] node [] <->
     nodeAt node (textPath t) = Some (TextNode (textData t)) /\
     nonBlank (textData t) = true) /\
  NoDup (collectTextNodes [] node []).
Proof.
  split; [apply elem_of_collectTextNodes|apply NoDup_collectTextNodes].
Qed.

Lemma findFirstTextNode_Some_visible (node : Node) (t : TextRef) :
  findFirstTextNode [] node = Some t ->
  nodeAt node (textPath t) = Some (TextNode (textData t)) /\
  nonBlank (textData t) = true.
Proof.
  rewrite findFirstTextNode_head. intros Ht.
  apply elem_of_collectTextNodes.
  destruct (collectTextNodes [] node []) as [|t0 ts]; [discriminate|].
  injection Ht as ->. apply list_elem_of_here.
Qed.

Lemma findFirstTextNode_None_iff (node : Node) :
  findFirstTextNode [] node = None <->
  forall p text,
    nodeAt node p = Some (TextNode text) -> nonBlank text = false.
Proof.
  rewrite findFirstTextNode_head. split.
  - intros Hnone p text Hat.
    destruct (nonBlank text) eqn:Hb; [|reflexivity].
    assert (Hin : mkTextRef p text ∈ collectTextNodes [] node [])
      by now apply elem_of_collectTextNodes.
    destruct (collectTextNodes [] node []); [|discriminate].
    now apply elem_of_nil in Hin.
  - intros Hblank.
    destruct (collectTextNodes [] node []) as [|t ts] eqn:Hc;
      [reflexivity|].
    assert (Hin : t ∈ collectTextNodes [] node [])
      by (rewrite Hc; apply list_elem_of_here).
    apply elem_of_collectTextNodes in Hin as [Hat Hb].
    rewrite (Hblank _ _ Hat) in Hb. discriminate.
Qed.

(** X5.  [findFirstTextNode] returns a text node of the subtree whose text is
    not blank, with the text it holds; it returns nothing exactly when the
    subtree has no such text node. *)
Theorem first_text_node_is_a_visible_text_node (node : Node) :
  (forall t,
     findFirstTextNode [] node = Some t ->
     nodeAt node (textPath t) = Some (TextNode (textData t)) /\
     nonBlank (textData t) = true) /\
  (findFirstTextNode [] node = None <->
   forall p text,
     nodeAt node p = Some (TextNode text) -> nonBlank text = false).
Proof.
  split; [apply findFirstTextNode_Some_visible|].
  apply findFirstTextNode_None_iff.
Qed.

(** ** When the post-layout hook acts *)

Lemma forallb_takeWhile_all {A} (p : A -> bool) (l : list A) :
  forallb p l = true -> takeWhile p l = l /\ dropWhile p l = [].
Proof.
  induction l as [|x l IH]; simpl; [tauto|].
  intros [Hx Hl]%andb_true_iff. rewrite Hx.
  destruct (IH Hl) as [-> ->]. tauto.
Qed.

Lemma matchFirstWord_needs_white_space_after (text : JsString) :
  forallb (fun c => negb (isWhiteSpace c))
          (dropWhile isWhiteSpace text) = true ->
  matchFirstWord text = None.
Proof.
  intros Hall. rewrite matchFirstWord_scan. unfold scanFirstWord.
  destruct (forallb_takeWhile_all _ _ Hall) as [-> ->]. simpl.
  now destruct (dropWhile isWhiteSpace text).
Qed.

Lemma remove_dups_length_le (l : list Z) :
  (length (remove_dups l) <= length l)%nat.
Proof.
  induction l as [|x l IH]; simpl; [lia|].
  destruct (decide_rel elem_of x l); simpl; lia.
Qed.

Section WhenTheHookActs.
Context {num : Type} `{JsNumber num}.

Implicit Types (nodeContext : NodeContext num)
  (checkPoints : list (NodeContext num)) (column : Column num).

(** X1.  The hook changes the node context exactly when the node context
    passes the gate, has a view node, the first word measures a width that is
    not [=== 0], and the text shows at least two different rounded tops. *)
Theorem hook_acts_iff nodeContext checkPoints column :
  postLayoutBlockHangingIndent nodeContext checkPoints column <> nodeContext
  <->
  passesGate nodeContext checkPoints /\
  exists blockElement,
    viewNode nodeContext = Some blockElement /\
    num_is_zero (firstWordWidthOf column blockElement) = false /\
    (2 <= countDistinct (observedTops column blockElement))%nat.
Proof.
  split.
  - intros Hchanged.
    destruct (postLayout_cases nodeContext checkPoints column)
      as [Hsame|(b & Hgate & Hview & Hw & Hlines & _)]; [contradiction|].
    split; [exact Hgate|]. exists b.
    rewrite <- lineCount_distinct. auto.
  - intros (Hgate & b & Hview & Hw & Hlines).
    rewrite <- lineCount_distinct in Hlines.
    rewrite (postLayout_applies _ _ _ _ Hgate Hview Hw Hlines).
    now apply transformed_neq.
Qed.

(** X2.  With no checkpoint, or on an inline-level node, or without a view
    node, the hook gives the node context back unchanged, whatever the
    inherited value and the layout are. *)
Theorem no_op_without_checkpoints_block_or_view
    nodeContext checkPoints column :
  checkPoints = [] \/ inline nodeContext = true \/
  viewNode nodeContext = None ->
  postLayoutBlockHangingIndent nodeContext checkPoints column = nodeContext.
Proof.
  intros Hmiss.
  destruct (postLayout_cases nodeContext checkPoints column)
    as [Hsame|(b & (Hcp & Hinl & _) & Hview & _)]; [exact Hsame|].
  destruct Hmiss as [Hnil|[Hin|Hnone]]; congruence.
Qed.

(** X6.  A block whose text nodes are all blank (or that has none) is left
    alone, whatever its style value and its layout are. *)
Theorem no_op_on_block_without_visible_text
    nodeContext checkPoints column blockElement :
  viewNode nodeContext = Some blockElement ->
  (forall p text,
     nodeAt (nodeOfElement blockElement) p = Some (TextNode text) ->
     nonBlank text = false) ->
  postLayoutBlockHangingIndent nodeContext checkPoints column = nodeContext.
Proof.
  intros Hview Hblank.
  apply (no_op_on_zero_width _ _ _ _ Hview).
  apply findFirstTextNode_None_iff in Hblank.
  unfold firstWordWidthOf, firstTextNodeOf, measureFirstWord.
  rewrite Hblank. apply num_zero_is_zero.
Qed.

(** X7.  When the first visible text node holds no white space after its
    first word, the pattern does not match and the block is left alone, even
    if more text follows in other nodes and the layout shows several
    lines. *)
Theorem no_op_when_first_text_node_is_one_word
    nodeContext checkPoints column blockElement (t : TextRef) :
  viewNode nodeContext = Some blockElement ->
  firstTextNodeOf blockElement = Some t ->
  forallb (fun c => negb (isWhiteSpace c))
          (dropWhile isWhiteSpace (textData t)) = true ->
  postLayoutBlockHangingIndent nodeContext checkPoints column = nodeContext.
Proof.
  intros Hview Hfirst Hword.
  apply (no_op_on_zero_width _ _ _ _ Hview).
  unfold firstWordWidthOf, measureFirstWord.
  rewrite Hfirst, (matchFirstWord_needs_white_space_after _ Hword).
  apply num_zero_is_zero.
Qed.

(** X9.  The line count never exceeds the number of rectangles the
    measurement of the text nodes returns; a block for which it returns fewer
    than two rectangles in all is left alone. *)
Theorem line_count_bounded_by_rectangles nodeContext checkPoints column :
  (forall blockElement,
     (size (measureLines column blockElement)
      <= rectangleCount column blockElement)%nat) /\
  ((forall blockElement, viewNode nodeContext = Some blockElement ->
      (rectangleCount column blockElement < 2)%nat) ->
   postLayoutBlockHangingIndent nodeContext checkPoints column
     = nodeContext).
Proof.
  assert (Hle : forall b,
    (size (measureLines column b) <= rectangleCount column b)%nat).
  { intros b. rewrite lineCount_distinct. apply remove_dups_length_le. }
  split; [exact Hle|].
  intros Hfew.
  destruct (postLayout_cases nodeContext checkPoints column)
    as [Hsame|(b & _ & Hview & _ & Hlines & _)]; [exact Hsame|].
  specialize (Hfew _ Hview). specialize (Hle b). lia.
Qed.


End WhenTheHookActs.

(** X8.  A match of the pattern has at least two code units, is no longer
    than the text, and ends in white space: the range of the first word lies
    within the text node. *)
Theorem first_word_range_within_text (text m : JsString) :
  matchFirstWord text = Some m ->
  (2 <= length m <= length text)%nat /\
  exists c, last m = Some c /\ isWhiteSpace c = true.
Proof.
  intros Hm.
  destruct (matchFirstWord_sound _ _ Hm)
    as [Hpre (lead & word & gap & -> & _ & _ & Hword & Hgap & Hne)].
  split.
  - split.
    + rewrite !length_app.
      destruct word; [congruence|]. destruct gap; [congruence|].
      simpl. lia.
    + now apply prefix_length.
  - destruct gap as [|g gap'] using rev_ind; [congruence|].
    exists g. rewrite !app_assoc, last_snoc. split; [reflexivity|].
    rewrite forallb_app in Hgap. apply andb_true_iff in Hgap as [_ Hg].
    simpl in Hg. now rewrite andb_true_r in Hg.
Qed.

(** ** The style capture hook, alone and before the post-layout hook *)

Section CaptureThenLayout.
Context {num : Type} `{JsNumber num}.

Implicit Types (nodeContext : NodeContext num)
  (checkPoints : list (NodeContext num)) (column : Column num)
  (style : gmap string StyleValue).

Lemma capture_carried nodeContext style (v : StyleValue) :
  style !! HANGING_INDENT_PROP = Some v -> styleTruthy v = true ->
  preprocessElementStyleHook nodeContext style
  = mkNodeContext (viewNode nodeContext) (inline nodeContext)
      (fragmentIndex nodeContext)
      (Some (<[HANGING_INDENT_PROP := VString (normalizedString v)]>
               (default ∅ (inheritedProps nodeContext))))
      (pluginProps nodeContext).
Proof.
  intros Hv Ht. unfold preprocessElementStyleHook. rewrite Hv, Ht.
  destruct (inheritedProps nodeContext), v; reflexivity.
Qed.

Lemma capture_not_carried nodeContext style :
  (forall v, style !! HANGING_INDENT_PROP = Some v ->
     styleTruthy v = false) ->
  preprocessElementStyleHook nodeContext style = nodeContext.
Proof.
  intros Hno. unfold preprocessElementStyleHook.
  destruct (style !! HANGING_INDENT_PROP) as [v|]; [|reflexivity].
  now rewrite (Hno v eq_refl).
Qed.

(** X11.  Capturing the same style twice is the same as capturing it once,
    and a later capture of a truthy value replaces whatever an earlier
    capture stored: the node context ends as if only the later style had
    been captured. *)
Theorem capture_is_idempotent_and_last_value_wins
    nodeContext (style style' : gmap string StyleValue) :
  preprocessElementStyleHook (preprocessElementStyleHook nodeContext style)
    style
  = preprocessElementStyleHook nodeContext style /\
  (forall v', style' !! HANGING_INDENT_PROP = Some v' ->
     styleTruthy v' = true ->
     preprocessElementStyleHook
       (preprocessElementStyleHook nodeContext style) style'
     = preprocessElementStyleHook nodeContext style').
Proof.
  assert (Hlast : forall (s s' : gmap string StyleValue) v',
    s' !! HANGING_INDENT_PROP = Some v' -> styleTruthy v' = true ->
    preprocessElementStyleHook (preprocessElementStyleHook nodeContext s) s'
    = preprocessElementStyleHook nodeContext s').
  { intros s s' v' Hv' Ht'.
    rewrite (capture_carried _ s' v' Hv' Ht').
    rewrite (capture_carried nodeContext s' v' Hv' Ht').
    destruct (s !! HANGING_INDENT_PROP) as [v|] eqn:Hv.
    - destruct (styleTruthy v) eqn:Ht.
      + rewrite (capture_carried nodeContext s v Hv Ht). simpl.
        now rewrite insert_insert_eq.
      + rewrite capture_not_carried; [reflexivity|]. congruence.
    - rewrite capture_not_carried; [reflexivity|]. congruence. }
  split; [|apply Hlast].
  destruct (style !! HANGING_INDENT_PROP) as [v|] eqn:Hv.
  - destruct (styleTruthy v) eqn:Ht.
    + now apply (Hlast style style v).
    + rewrite !capture_not_carried; congruence.
  - rewrite !capture_not_carried; congruence.
Qed.

(** X12.  After the capture of a style value whose normalized string is
    ["first-word"] (an identifier, a string, or any other value with that
    [toString()]), the gate of the post-layout hook asks only for a
    checkpoint, a block-level node and the first fragment; with a view node,
    a width that is not [=== 0] and two lines the block gets its markers. *)
Theorem captured_first_word_opens_the_gate
    nodeContext checkPoints column style (v : StyleValue)
    (blockElement : Element) :
  style !! HANGING_INDENT_PROP = Some v ->
  styleTruthy v = true ->
  normalizedString v = "first-word" ->
  let captured := preprocessElementStyleHook nodeContext style in
  (passesGate captured checkPoints <->
   checkPoints <> [] /\ inline nodeContext = false /\
   fragmentIndex nodeContext <= 1) /\
  (checkPoints <> [] -> inline nodeContext = false ->
   fragmentIndex nodeContext <= 1 ->
   viewNode nodeContext = Some blockElement ->
   num_is_zero (firstWordWidthOf column blockElement) = false ->
   (2 <= countDistinct (observedTops column blockElement))%nat ->
   elChildNodes <$>
     viewNode (postLayoutBlockHangingIndent captured checkPoints column)
   = Some (nodeOfElement floatSpacer
             :: nodeOfElement
                  (floatIndent (firstWordWidthOf column blockElement))
             :: elChildNodes blockElement)).
Proof.
  intros Hv Ht Hnorm captured.
  assert (Hcap : captured
    = mkNodeContext (viewNode nodeContext) (inline nodeContext)
        (fragmentIndex nodeContext)
        (Some (<[HANGING_INDENT_PROP := VString "first-word"]>
                 (default ∅ (inheritedProps nodeContext))))
        (pluginProps nodeContext)).
  { unfold captured. rewrite (capture_carried _ _ _ Hv Ht), Hnorm.
    reflexivity. }
  assert (Hgate : checkPoints <> [] -> inline nodeContext = false ->
    fragmentIndex nodeContext <= 1 -> passesGate captured checkPoints).
  { intros Hcp Hinl Hfrag. rewrite Hcap.
    repeat split; try assumption.
    eexists. split; [reflexivity|]. apply lookup_insert_eq. }
  split.
  - split; [|intros (? & ? & ?); auto].
    rewrite Hcap. intros (Hcp & Hinl & Hfrag & _). auto.
  - intros Hcp Hinl Hfrag Hview Hw Hlines.
    rewrite <- lineCount_distinct in Hlines.
    assert (Hview' : viewNode captured = Some blockElement)
      by (rewrite Hcap; exact Hview).
    rewrite (postLayout_applies _ _ _ _ (Hgate Hcp Hinl Hfrag)
               Hview' Hw Hlines).
    reflexivity.
Qed.

(** X13.  After the capture of a truthy style value whose normalized string
    is anything but ["first-word"], the post-layout hook leaves the node
    context alone, also when the node context had carried ["first-word"]
    before: the captured value overrides it. *)
Theorem captured_other_value_closes_the_gate
    nodeContext checkPoints column style (v : StyleValue) :
  style !! HANGING_INDENT_PROP = Some v ->
  styleTruthy v = true ->
  normalizedString v <> "first-word" ->
  postLayoutBlockHangingIndent
    (preprocessElementStyleHook nodeContext style) checkPoints column
  = preprocessElementStyleHook nodeContext style.
Proof.
  intros Hv Ht Hnorm.
  destruct (postLayout_cases (preprocessElementStyleHook nodeContext style)
              checkPoints column)
    as [Hsame|(b & (_ & _ & _ & props & Hprops & Hval) & _)];
    [exact Hsame|].
  rewrite (capture_carried _ _ _ Hv Ht) in Hprops. simpl in Hprops.
  injection Hprops as <-. rewrite lookup_insert_eq in Hval. congruence.
Qed.

End CaptureThenLayout.

(** ** The markers and a second run *)

Section SecondRun.
Context {num : Type} `{JsNumber num}.

Implicit Types (nodeContext : NodeContext num)
  (checkPoints : list (NodeContext num)) (column : Column num).

Lemma collect_shifted (children : list Node) :
  forall g : nat -> nat,
    concat (imap (fun i c => collectTextNodes [S (S (g i))] c []) children)
    = map shiftText
        (concat (imap (fun i c => collectTextNodes [g i] c []) children)).
Proof.
  induction children as [|c cs IH]; intros g; [reflexivity|].
  simpl. rewrite map_app. f_equal.
  - rewrite (collectTextNodes_under c [S (S (g 0%nat))]),
      (collectTextNodes_under c [g 0%nat]), map_map.
    reflexivity.
  - exact (IH (fun i => g (S i))).
Qed.

Lemma collect_insertMarkers (blockElement : Element) (w : num) :
  collectTextNodes [] (nodeOfElement (insertMarkers blockElement w)) []
  = map shiftText (collectTextNodes [] (nodeOfElement blockElement) []).
Proof.
  rewrite insertMarkers_eq. unfold nodeOfElement at 1 4.
  cbn [elLocalName elClassName elStyle elChildNodes].
  rewrite !collect_element.
  exact (collect_shifted (elChildNodes blockElement) (fun i => i)).
Qed.

Lemma firstTextNodeOf_insertMarkers (blockElement : Element) (w : num) :
  firstTextNodeOf (insertMarkers blockElement w)
  = option_map shiftText (firstTextNodeOf blockElement).
Proof.
  unfold firstTextNodeOf.
  rewrite !findFirstTextNode_head, collect_insertMarkers.
  now destruct (collectTextNodes [] (nodeOfElement blockElement) []).
Qed.

(** X14.  The markers hold no text.  In the block with the markers the two
    walks find the text nodes they found before, with the same text, two
    positions further along the children of the block. *)
Theorem walks_skip_the_markers (blockElement : Element) (w : num) :
  collectTextNodes [] (nodeOfElement (insertMarkers blockElement w)) []
    = map shiftText (collectTextNodes [] (nodeOfElement blockElement) []) /\
  firstTextNodeOf (insertMarkers blockElement w)
    = option_map shiftText (firstTextNodeOf blockElement).
Proof.
  split; [apply collect_insertMarkers|apply firstTextNodeOf_insertMarkers].
Qed.

Lemma firstWordWidthOf_stable column (blockElement : Element) (w : num) :
  stableUnderMarkers column blockElement w ->
  firstWordWidthOf column (insertMarkers blockElement w)
  = firstWordWidthOf column blockElement.
Proof.
  intros Hstable. unfold firstWordWidthOf, measureFirstWord.
  rewrite firstTextNodeOf_insertMarkers.
  destruct (firstTextNodeOf blockElement) as [t|]; [|reflexivity].
  simpl. destruct (matchFirstWord (textData t)) as [m|]; [|reflexivity].
  now rewrite <- (Hstable (RangeOffsets (textPath t) 0 (length m))).
Qed.

Lemma observedTops_stable column (blockElement : Element) (w : num) :
  stableUnderMarkers column blockElement w ->
  observedTops column (insertMarkers blockElement w)
  = observedTops column blockElement.
Proof.
  intros Hstable. unfold observedTops. rewrite collect_insertMarkers.
  induction (collectTextNodes [] (nodeOfElement blockElement) [])
    as [|t ts IH]; [reflexivity|].
  simpl. rewrite IH. f_equal.
  now rewrite <- (Hstable (RangeSelectNode (textPath t))).
Qed.

(** X15.  On a layout that the markers do not disturb, a second run of the
    hook on the result of a complete run measures the same width and the
    same lines and inserts the same two markers again: the block ends with
    spacer, pusher, spacer, pusher in front of its former children, and the
    diagnostics are those of the first run. *)
Theorem second_run_repeats_the_first
    nodeContext checkPoints column blockElement :
  let W := firstWordWidthOf column blockElement in
  let once := postLayoutBlockHangingIndent nodeContext checkPoints column in
  let twice := postLayoutBlockHangingIndent once checkPoints column in
  passesGate nodeContext checkPoints ->
  viewNode nodeContext = Some blockElement ->
  num_is_zero W = false ->
  (2 <= countDistinct (observedTops column blockElement))%nat ->
  stableUnderMarkers column blockElement W ->
  elChildNodes <$> viewNode twice
    = Some (nodeOfElement floatSpacer :: nodeOfElement (floatIndent W)
              :: nodeOfElement floatSpacer :: nodeOfElement (floatIndent W)
              :: elChildNodes blockElement) /\
  pluginProps twice = pluginProps once.
Proof.
  intros W once twice Hgate Hview Hw Hlines Hstable.
  rewrite <- lineCount_distinct in Hlines.
  assert (HW' : firstWordWidthOf column (insertMarkers blockElement W) = W)
    by now apply firstWordWidthOf_stable.
  assert (Hsize : size (measureLines column (insertMarkers blockElement W))
                  = size (measureLines column blockElement)).
  { rewrite !lineCount_distinct. f_equal.
    now apply observedTops_stable. }
  split.
  - unfold twice, once.
    rewrite (second_run_applies_again _ _ _ _ Hgate Hview Hw Hlines);
      fold W; rewrite ?HW', ?Hsize; [reflexivity|exact Hw|exact Hlines].
  - unfold twice, once.
    rewrite (postLayout_applies _ _ _ _ Hgate Hview Hw Hlines). fold W.
    set (first := transformed nodeContext blockElement W
                    (size (measureLines column blockElement))).
    assert (Hview1 : viewNode first = Some (insertMarkers blockElement W))
      by (rewrite insertMarkers_eq; reflexivity).
    assert (Hgate1 : passesGate first checkPoints).
    { destruct Hgate as (Hcp & Hinl & Hfrag & Hprops).
      repeat split; assumption. }
    rewrite (postLayout_applies _ _ _ _ Hgate1 Hview1);
      rewrite ?HW', ?Hsize; [|exact Hw|exact Hlines].
    unfold transformed, first. simpl. f_equal.
    apply map_eq. intros key.
    destruct (decide (key = "torahWindow:lineCount")) as [->|H1];
      [now rewrite !lookup_insert_eq|].
    rewrite !(lookup_insert_ne _ "torahWindow:lineCount") by congruence.
    destruct (decide (key = "torahWindow:width")) as [->|H2];
      [now rewrite !lookup_insert_eq|].
    rewrite !(lookup_insert_ne _ "torahWindow:width") by congruence.
    destruct (decide (key = "torahWindow:applied")) as [->|H3];
      [now rewrite !lookup_insert_eq|].
    rewrite !lookup_insert_ne by congruence.
    reflexivity.
Qed.

(** X16.  In a complete run the second node the hook inserts is the pusher:
    a childless [span] that floats to the line start, clears the line start,
    is as wide as the first word in pixels and 1px high; the spacer before it
    is childless too. *)
Theorem pusher_marker_style nodeContext checkPoints column :
  postLayoutBlockHangingIndent nodeContext checkPoints column
    <> nodeContext ->
  exists blockElement blockElement' pusher others,
    viewNode nodeContext = Some blockElement /\
    viewNode (postLayoutBlockHangingIndent nodeContext checkPoints column)
      = Some blockElement' /\
    elChildNodes blockElement'
      = nodeOfElement floatSpacer :: nodeOfElement pusher :: others /\
    pusher = floatIndent (firstWordWidthOf column blockElement) /\
    elLocalName pusher = "span" /\
    elClassName pusher = "vivliostyle-hanging-indent-pusher" /\
    elStyle pusher !! "float" = Some "inline-start" /\
    elStyle pusher !! "clear" = Some "inline-start" /\
    elStyle pusher !! "width"
      = Some (num_toString (firstWordWidthOf column blockElement)
                ++ "px")%string /\
    elStyle pusher !! "height" = Some "1px" /\
    elChildNodes pusher = [] /\ elChildNodes floatSpacer = [].
Proof.
  intros Hchanged.
  destruct (postLayout_cases nodeContext checkPoints column)
    as [Hsame|(b & _ & Hview & _ & _ & Happ)]; [contradiction|].
  rewrite Happ. unfold transformed. simpl.
  eexists b, _, _, _. repeat split; try exact Hview; by simplify_map_eq.
Qed.

End SecondRun.

(** ** Running the further properties on the example blocks *)

Import Blocks.

(** X2 on the paragraph as an inline-level node. *)
Lemma inline_node_is_left_alone :
  postLayoutBlockHangingIndent inlineContext [inlineContext] twoLines
    = inlineContext.
Proof.
  apply (no_op_without_checkpoints_block_or_view
           inlineContext [inlineContext] twoLines).
  right. left. reflexivity.
Defined.

(** X6 on the paragraph that holds white space only. *)
Lemma blank_block_is_left_alone :
  postLayoutBlockHangingIndent
    (blockContext blankBlock (Some firstWordProps))
    [blockContext blankBlock (Some firstWordProps)] twoLines
  = blockContext blankBlock (Some firstWordProps).
Proof.
  apply (no_op_on_block_without_visible_text
           (blockContext blankBlock (Some firstWordProps))
           [blockContext blankBlock (Some firstWordProps)] twoLines
           blankBlock).
  - reflexivity.
  - apply findFirstTextNode_None_iff. vm_compute. reflexivity.
Defined.

(** X7 on the paragraph whose first text node is the single word. *)
Lemma split_first_word_is_left_alone :
  (2 <= countDistinct (observedTops twoLines splitBlock))%nat /\
  postLayoutBlockHangingIndent
    (blockContext splitBlock (Some firstWordProps))
    [blockContext splitBlock (Some firstWordProps)] twoLines
  = blockContext splitBlock (Some firstWordProps).
Proof.
  split; [vm_compute; lia|].
  apply (no_op_when_first_text_node_is_one_word
           (blockContext splitBlock (Some firstWordProps))
           [blockContext splitBlock (Some firstWordProps)] twoLines
           splitBlock (mkTextRef [0%nat] (utf16 "Hello"))).
  - reflexivity.
  - vm_compute. reflexivity.
  - vm_compute. reflexivity.
Defined.

(** X8 on the text of the example paragraph. *)
Lemma hello_range_within_text :
  (2 <= length (utf16 "Hello ")
   <= length (utf16 "Hello world, this wraps."))%nat /\
  exists c, last (utf16 "Hello ") = Some c /\ isWhiteSpace c = true.
Proof.
  apply (first_word_range_within_text
           (utf16 "Hello world, this wraps.") (utf16 "Hello ")).
  vm_compute. reflexivity.
Defined.


(** X12 on the style [hanging-indent: "first-word"] given as a string. *)
Lemma captured_string_gets_markers :
  elChildNodes <$>
    viewNode (postLayoutBlockHangingIndent
                (preprocessElementStyleHook (blockContext helloBlock None)
                   stringStyle)
                [blockContext helloBlock None] twoLines)
  = Some (nodeOfElement floatSpacer :: nodeOfElement (floatIndent 30)
            :: elChildNodes helloBlock).
Proof.
  destruct (captured_first_word_opens_the_gate
              (blockContext helloBlock None) [blockContext helloBlock None]
              twoLines stringStyle (SString "first-word") helloBlock
              eq_refl eq_refl eq_refl) as [_ Hrun].
  assert (Hw : num_is_zero (firstWordWidthOf twoLines helloBlock) = false)
    by (vm_compute; reflexivity).
  assert (Hlines : (2 <= countDistinct (observedTops twoLines helloBlock))%nat)
    by (vm_compute; lia).
  assert (Hfrag : fragmentIndex (blockContext helloBlock None) <= 1)
    by (simpl; lia).
  assert (Hcp : [blockContext helloBlock None] <> []) by discriminate.
  specialize (Hrun Hcp eq_refl Hfrag eq_refl Hw Hlines).
  vm_compute in Hrun. vm_compute. exact Hrun.
Defined.

(** X13 on a node context that carried [first-word] and whose own style says
    [none]. *)
Lemma captured_none_is_left_alone :
  postLayoutBlockHangingIndent
    (preprocessElementStyleHook inheritingContext noneStyle)
    [inheritingContext] twoLines
  = preprocessElementStyleHook inheritingContext noneStyle.
Proof.
  apply (captured_other_value_closes_the_gate
           inheritingContext [inheritingContext] twoLines noneStyle
           (SIdent "none")).
  - reflexivity.
  - reflexivity.
  - discriminate.
Defined.

(** X15 on the paragraph that wraps once. *)
Lemma hello_second_run_repeats_the_first :
  elChildNodes <$>
    viewNode (postLayoutBlockHangingIndent
                (postLayoutBlockHangingIndent helloContext [helloContext]
                   twoLines)
                [helloContext] twoLines)
  = Some (nodeOfElement floatSpacer :: nodeOfElement (floatIndent 30)
            :: nodeOfElement floatSpacer :: nodeOfElement (floatIndent 30)
            :: elChildNodes helloBlock).
Proof.
  assert (Hgate : passesGate helloContext [helloContext]).
  { split; [discriminate|]. split; [reflexivity|]. split; [simpl; lia|].
    eexists. split; reflexivity. }
  assert (Hw : num_is_zero (firstWordWidthOf twoLines helloBlock) = false)
    by (vm_compute; reflexivity).
  assert (Hlines : (2 <= countDistinct (observedTops twoLines helloBlock))%nat)
    by (vm_compute; lia).
  assert (Hstable : stableUnderMarkers twoLines helloBlock
                      (firstWordWidthOf twoLines helloBlock)).
  { intros [node s e|node]; reflexivity. }
  destruct (second_run_repeats_the_first helloContext [helloContext]
              twoLines helloBlock Hgate eq_refl Hw Hlines Hstable)
    as [Hrun _].
  vm_compute in Hrun. vm_compute. exact Hrun.
Defined.

(** X16 on the paragraph that wraps once. *)
Lemma hello_pusher_style :
  exists blockElement blockElement' pusher others,
    viewNode helloContext = Some blockElement /\
    viewNode (postLayoutBlockHangingIndent helloContext [helloContext]
                twoLines) = Some blockElement' /\
    elChildNodes blockElement'
      = nodeOfElement floatSpacer :: nodeOfElement pusher :: others /\
    pusher = floatIndent (firstWordWidthOf twoLines blockElement) /\
    elLocalName pusher = "span" /\
    elClassName pusher = "vivliostyle-hanging-indent-pusher" /\
    elStyle pusher !! "float" = Some "inline-start" /\
    elStyle pusher !! "clear" = Some "inline-start" /\
    elStyle pusher !! "width"
      = Some (num_toString (firstWordWidthOf twoLines blockElement)
                ++ "px")%string /\
    elStyle pusher !! "height" = Some "1px" /\
    elChildNodes pusher = [] /\ elChildNodes floatSpacer = [].
Proof.
  apply (pusher_marker_style helloContext [helloContext] twoLines).
  intros Heq.
  apply (f_equal (fun c => length <$> (elChildNodes <$> viewNode c))) in Heq.
  vm_compute in Heq. discriminate.
Defined.
